(** * Box-office prediction: feature engineering and inference-row builder

    A shallow embedding of
      - [scripts/03_feature_engineering.py]: the cell parsers
        ([get_genre_names], [get_season], [get_director], [get_top_actor])
        and the rolling-average pass of [main];
      - [app.py]: the construction of [input_data] under the predict button.

    Conventions.
      - Python numbers are exact rationals ([Qc]); rounding of binary floats
        is not modelled.
      - A raised exception is the [Raise] case of [result]; a bare
        [except:] handler matches on it.
      - A [dict] whose iteration order is observed (the row handed to the
        model) is an insertion-ordered association list; the ledgers of the
        rolling pass, only ever looked up by key, are [gmap]s.
      - Library calls whose code is not part of the repository are
        parameters: [json_loads] and the frame sort [sort_values]. *)

From Stdlib Require Import QArith Qcanon OrderedTypeEx.
From stdpp Require Import base option list sorting numbers strings gmap.

Local Open Scope string_scope.
Local Open Scope Z_scope.
Local Open Scope Qc_scope.
Local Open Scope list_scope.

(** ** Exceptions *)

Inductive exn :=
| KeyError | ZeroDivisionError | TypeError | AttributeError
| JSONDecodeError | OverflowError | ValueError.

Inductive result (A : Type) :=
| Ok (a : A)
| Raise (e : exn).
Arguments Ok {A} a.
Arguments Raise {A} e.

#[global] Instance result_ret : MRet result := λ A a, Ok a.
#[global] Instance result_bind : MBind result := λ A B f m,
  match m with
  | Ok a => f a
  | Raise e => Raise e
  end.

(** ** Numbers *)

Definition million : Qc := Qc_of_Z 1000000.

(** [a / n] for a float [a] and an int [n]. *)
Definition py_div (a : Qc) (n : Z) : result Qc :=
  if bool_decide (n = 0%Z) then Raise ZeroDivisionError else Ok (a / Qc_of_Z n).

(** [int(q)]: truncation toward zero. *)
Definition py_int (q : Qc) : Z := Z.quot (Qnum q) (Zpos (Qden q)).

(** ** Python values produced by [json.loads] *)

#[local] Unset Elimination Schemes.
Inductive pyval :=
| PNone
| PBool (b : bool)
| PNum (q : Qc)
| PStr (s : string)
| PList (xs : list pyval)
| PDict (kvs : list (string * pyval)).
#[local] Set Elimination Schemes.

(** A frame cell of an object column read from CSV: missing, or text. *)
Inductive cell :=
| NaN
| Text (s : string).

Fixpoint assoc (k : string) (kvs : list (string * pyval)) : option pyval :=
  match kvs with
  | [] => None
  | (k', v) :: rest => if bool_decide (k' = k) then Some v else assoc k rest
  end.

(** [for x in v]: the items a [for] loop visits. *)
Definition py_iter (v : pyval) : result (list pyval) :=
  match v with
  | PList xs => Ok xs
  | PDict kvs => Ok (PStr <$> kvs.*1)
  | PStr s => Ok ((λ c, PStr (String c EmptyString)) <$> String.list_ascii_of_string s)
  | PNone | PBool _ | PNum _ => Raise TypeError
  end.

(** [len(v)]. *)
Definition py_len (v : pyval) : result nat :=
  match v with
  | PList xs => Ok (length xs)
  | PDict kvs => Ok (length kvs)
  | PStr s => Ok (String.length s)
  | PNone | PBool _ | PNum _ => Raise TypeError
  end.

(** [v[0]], for a [v] of positive length. *)
Definition py_first (v : pyval) : result pyval :=
  match v with
  | PList (x :: _) => Ok x
  | PList [] => Raise KeyError
  | PDict _ => Raise KeyError
  | PStr (String c _) => Ok (PStr (String c EmptyString))
  | PStr EmptyString => Raise KeyError
  | PNone | PBool _ | PNum _ => Raise TypeError
  end.

(** [v.get(k)]: only a dict has the method. *)
Definition py_get (v : pyval) (k : string) : result pyval :=
  match v with
  | PDict kvs => Ok (default PNone (assoc k kvs))
  | _ => Raise AttributeError
  end.

(** [v[k]] for a string key [k]. *)
Definition py_getitem (v : pyval) (k : string) : result pyval :=
  match v with
  | PDict kvs => match assoc k kvs with Some x => Ok x | None => Raise KeyError end
  | _ => Raise TypeError
  end.

(** [v == s] for a string literal [s]. *)
Definition py_eq_str (v : pyval) (s : string) : bool :=
  match v with
  | PStr t => bool_decide (t = s)
  | _ => false
  end.

Definition is_str (v : pyval) : Prop :=
  match v with PStr _ => True | _ => False end.

(** ** [03_feature_engineering.py]: cell parsers *)

Fixpoint genre_names (genres : list pyval) : result (list pyval) :=
  match genres with
  | [] => Ok []
  | g :: rest =>
      n ← py_getitem g "name";
      ns ← genre_names rest;
      Ok (n :: ns)
  end.

Definition get_genre_names (json_loads : string → result pyval)
    (genre_str : cell) : list pyval :=
  let body : result (list pyval) :=
    match genre_str with
    | NaN => Ok []
    | Text s =>
        genres ← json_loads s;
        items ← py_iter genres;
        genre_names items
    end in
  match body with
  | Ok names => names
  | Raise _ => []
  end.

(** A cell of the [release_month] column. *)
Inductive month_cell :=
| MonthNaN
| MonthInf
| MonthNum (q : Qc).

Definition month_int (month : month_cell) : result Z :=
  match month with
  | MonthNum q => Ok (py_int q)
  | MonthInf => Raise OverflowError
  | MonthNaN => Raise ValueError
  end.

Definition get_season (month : month_cell) : result string :=
  match month with
  | MonthNaN => Ok "Unknown"
  | _ =>
      month ← month_int month;
      if bool_decide (month ∈ [5; 6; 7]%Z) then Ok "Summer_Blockbuster"
      else if bool_decide (month ∈ [11; 12]%Z) then Ok "Holiday_Season"
      else if bool_decide (month ∈ [1; 2; 8; 9]%Z) then Ok "Dump_Months"
      else Ok "Spring_Fall"
  end.

Fixpoint find_director (crew : list pyval) : result pyval :=
  match crew with
  | [] => Ok (PStr "Unknown")
  | member :: rest =>
      job ← py_get member "job";
      if py_eq_str job "Director" then py_get member "name"
      else find_director rest
  end.

Definition get_director (json_loads : string → result pyval)
    (crew_str : cell) : pyval :=
  let body : result pyval :=
    match crew_str with
    | NaN => Ok (PStr "Unknown")
    | Text s =>
        crew ← json_loads s;
        members ← py_iter crew;
        find_director members
    end in
  match body with
  | Ok v => v
  | Raise _ => PStr "Unknown"
  end.

Definition get_top_actor (json_loads : string → result pyval)
    (cast_str : cell) : pyval :=
  let body : result pyval :=
    match cast_str with
    | NaN => Ok (PStr "Unknown")
    | Text s =>
        cast ← json_loads s;
        n ← py_len cast;
        if bool_decide (0 < n)%nat then
          first ← py_first cast;
          py_get first "name"
        else Ok (PStr "Unknown")
    end in
  match body with
  | Ok v => v
  | Raise _ => PStr "Unknown"
  end.

(** ** [03_feature_engineering.py]: the rolling-average pass of [main] *)

(** The columns of a frame row that the pass reads: the date text, the two
    names written by lines 88-89, and the adjusted revenue. A name is a
    string here. Lines 88-89 can also store a value that is not a string: a
    hashable one ([None], a number) acts as one more dictionary key, and an
    unhashable one (a list or a dict) makes [d in director_rev] on line 106
    raise [TypeError]. Neither is represented: what is stated about the pass
    is stated about frames whose names are strings. *)
Record movie := Movie {
  release_date : string;
  director : string;
  top_actor : string;
  revenue_adj : Qc;
}.

#[global] Instance movie_eq_dec : EqDecision movie.
Proof. solve_decision. Defined.

(** One pair of accumulator dictionaries with its list of scores:
    [director_rev, director_count, dir_scores], and the same for actors. *)
Record ledger := Ledger {
  rev_sum : gmap string Qc;
  rev_count : gmap string Z;
  scores : list Qc;
}.

Definition empty_ledger : ledger := Ledger ∅ ∅ [].

(** [m[k]] on a dictionary. *)
Definition getitem {V} (m : gmap string V) (k : string) : result V :=
  match m !! k with
  | Some v => Ok v
  | None => Raise KeyError
  end.

(** The body of the loop for one entity column (lines 106-115 for the
    director, 118-126 for the actor: the same text on the other ledger). *)
Definition entity_step (d : string) (rev : Qc) (L : ledger) : result ledger :=
  if bool_decide (d ≠ "Unknown") && bool_decide (is_Some (rev_sum L !! d)) then
    s ← getitem (rev_sum L) d;
    c ← getitem (rev_count L) d;
    q ← py_div s c;
    s' ← getitem (rev_sum L) d;
    c' ← getitem (rev_count L) d;
    Ok (Ledger (<[d := s' + rev]> (rev_sum L))
               (<[d := (c' + 1)%Z]> (rev_count L))
               (scores L ++ [q]))
  else
    if bool_decide (d ≠ "Unknown") then
      Ok (Ledger (<[d := rev]> (rev_sum L)) (<[d := 1%Z]> (rev_count L))
                 (scores L ++ [0]))
    else
      Ok (Ledger (rev_sum L) (rev_count L) (scores L ++ [0])).

(** The state of the loop: the director ledger and the actor ledger. *)
Definition row_step (row : movie) (st : ledger * ledger) : result (ledger * ledger) :=
  let d := director row in
  let a := top_actor row in
  let rev := revenue_adj row in
  dl ← entity_step d rev st.1;
  al ← entity_step a rev st.2;
  Ok (dl, al).

(** [for idx, row in df.iterrows(): ...] *)
Fixpoint loop (rows : list movie) (st : ledger * ledger) : result (ledger * ledger) :=
  match rows with
  | [] => Ok st
  | row :: rest => st' ← row_step row st; loop rest st'
  end.

(** A row of the frame once the two score columns are attached. *)
Record scored := Scored {
  row_of : movie;
  director_score : Qc;
  actor_score : Qc;
}.

(** [pd.Series(xs) / 1_000_000] *)
Definition in_millions (xs : list Qc) : list Qc := (λ x, x / million) <$> xs.

Definition attach (frame : list movie) (ds acs : list Qc) : list scored :=
  zip_with (λ m p, Scored m p.1 p.2) frame (zip ds acs).

(** Lines 96-130, on a frame already in processing order. *)
Definition rolling_scores (frame : list movie) : result (list scored) :=
  st ← loop frame (empty_ledger, empty_ledger);
  Ok (attach frame (in_millions (scores st.1)) (in_millions (scores st.2))).

(** [df.sort_values('release_date')] compares the date strings. *)
Definition date_le (x y : movie) : Prop :=
  String.leb (release_date x) (release_date y) = true.
Definition date_lt (x y : movie) : Prop :=
  String.ltb (release_date x) (release_date y) = true.

#[global] Instance date_le_dec : RelDecision date_le.
Proof. intros x y. unfold date_le. apply _. Defined.
#[global] Instance date_lt_dec : RelDecision date_lt.
Proof. intros x y. unfold date_lt. apply _. Defined.

(** What the call on line 94 is relied on for: the rows of [df], reordered so
    that the dates ascend. The call passes no [kind], so nothing is fixed
    about the order among equal dates. *)
Definition sorts_by_date (sort_values : list movie → list movie) : Prop :=
  ∀ df, sort_values df ≡ₚ df ∧ StronglySorted date_le (sort_values df).

(** Lines 94-130. *)
Definition main (sort_values : list movie → list movie) (df : list movie)
    : result (list scored) :=
  rolling_scores (sort_values df).

(** The two entity columns and their score columns. *)
Inductive role := Directing | Acting.

Definition entity (r : role) (m : movie) : string :=
  match r with Directing => director m | Acting => top_actor m end.

Definition score (r : role) (s : scored) : Qc :=
  match r with Directing => director_score s | Acting => actor_score s end.

(** The score of the first row holding [m] in the output of [main]. *)
Definition find_row (m : movie) (rows : list scored) : option scored :=
  snd <$> list_find (λ r, row_of r = m) rows.

Definition score_of (r : role) (m : movie) (out : result (list scored)) : option Qc :=
  match out with
  | Ok rows => score r <$> find_row m rows
  | Raise _ => None
  end.

(** ** [app.py]: the row built under the predict button *)

Module App.

(** The widgets' values. *)
Record live_input := LiveInput {
  budget : Qc;
  runtime : Qc;
  season : string;
  is_franchise : bool;
  director_score : Qc;
  actor_score : Qc;
  primary_genre : string;
}.

(** A [dict] from column name to number, in insertion order. *)
Definition pydict := list (string * Qc).

(** [k in d] *)
Definition contains (k : string) (d : pydict) : bool := bool_decide (k ∈ d.*1).

(** [d[k] = v]: overwrite in place, or append a new key at the end. *)
Fixpoint setitem (k : string) (v : Qc) (d : pydict) : pydict :=
  match d with
  | [] => [(k, v)]
  | (k', v') :: rest =>
      if bool_decide (k' = k) then (k', v) :: rest
      else (k', v') :: setitem k v rest
  end.

(** [d.get(k)], used to read an entry back. *)
Fixpoint lookup (k : string) (d : pydict) : option Qc :=
  match d with
  | [] => None
  | (k', v) :: rest => if bool_decide (k' = k) then Some v else lookup k rest
  end.

(** [{col: 0 for col in feature_cols}] *)
Definition zeros (feature_cols : list string) : pydict :=
  foldl (λ d col, setitem col 0 d) [] feature_cols.

(** [if k in d: d[k] = 1] *)
Definition set_if_present (k : string) (d : pydict) : pydict :=
  if contains k d then setitem k 1 d else d.

Definition season_col (ui : live_input) : string := "season_" +:+ season ui.
Definition genre_col (ui : live_input) : string := "genre_" +:+ primary_genre ui.

(** Lines 55-62: the zero dictionary, then the five numeric writes. *)
Definition numeric_data (feature_cols : list string) (ui : live_input) : pydict :=
  let d := zeros feature_cols in
  let d := setitem "budget_adj" (budget ui * million) d in
  let d := setitem "runtime" (runtime ui) d in
  let d := setitem "is_franchise" (if is_franchise ui then 1 else 0) d in
  let d := setitem "director_score" (director_score ui) d in
  let d := setitem "actor_score" (actor_score ui) d in
  d.

(** Lines 55-71: then the two guarded indicator writes. *)
Definition input_data (feature_cols : list string) (ui : live_input) : pydict :=
  let d := numeric_data feature_cols ui in
  let d := set_if_present (season_col ui) d in
  let d := set_if_present (genre_col ui) d in
  d.

(** [pd.DataFrame([input_data])]: one row, one column per key, in key order. *)
Definition input_columns (feature_cols : list string) (ui : live_input) : list string :=
  (input_data feature_cols ui).*1.
Definition input_row (feature_cols : list string) (ui : live_input) : list Qc :=
  (input_data feature_cols ui).*2.

(** The names written on lines 58-62. *)
Definition numeric_cols : list string :=
  ["budget_adj"; "runtime"; "is_franchise"; "director_score"; "actor_score"].

End App.

(** ** [03_feature_engineering.py]: the franchise flag *)

(** [bool(v)] *)
Definition py_truthy (v : pyval) : bool :=
  match v with
  | PNone => false
  | PBool b => b
  | PNum q => negb (bool_decide (q = 0))
  | PStr s => negb (bool_decide (s = ""))
  | PList xs => negb (bool_decide (xs = []))
  | PDict kvs => negb (bool_decide (kvs = []))
  end.

(** [isinstance(v, dict)] *)
Definition is_dict (v : pyval) : bool :=
  match v with PDict _ => true | _ => false end.

Definition is_franchise (json_loads : string → result pyval)
    (collection_str : cell) : Z :=
  let body : result Z :=
    match collection_str with
    | NaN => Ok 0%Z
    | Text s =>
        if bool_decide (s = "null") then Ok 0%Z
        else
          coll ← json_loads s;
          if py_truthy coll && is_dict coll then Ok 1%Z else Ok 0%Z
    end in
  match body with
  | Ok v => v
  | Raise _ => 0%Z
  end.

(** ** [app.py]: the choices of the two selectboxes (lines 34 and 48) *)

Definition season_options : list string :=
  ["Summer Blockbuster"; "Holiday Season"; "Spring Fall"; "Dump Months"].

Definition genre_options : list string :=
  ["Action"; "Adventure"; "Animation"; "Comedy"; "Drama"; "Science Fiction";
   "Horror"; "Thriller"].

(** ** [02_clean_data.py]: the inflation adjustment (lines 50-66) *)

(** [Series.unique()]: the distinct values, in order of first appearance. *)
Fixpoint pd_unique (seen xs : list Z) : list Z :=
  match xs with
  | [] => []
  | x :: rest =>
      if bool_decide (x ∈ seen) then pd_unique seen rest
      else x :: pd_unique (x :: seen) rest
  end.

(** The loop of lines 54-62. [cpi_inflate y] stands for [cpi.inflate(1, y)]. *)
Definition inflation_multipliers (cpi_inflate : Z → result Qc) (current_year : Z)
    (unique_years : list Z) : gmap Z Qc :=
  foldl (λ multipliers y,
           if bool_decide (current_year ≤ y)%Z then <[y := 1]> multipliers
           else match cpi_inflate y with
                | Ok f => <[y := f]> multipliers
                | Raise _ => <[y := 1]> multipliers
                end)
        ∅ unique_years.

(** The columns of a row that the adjustment reads (present in every row
    that lines 36-42 keep) and the columns it writes, where a missing number
    ([NaN]) is [None]. *)
Record money_row := MoneyRow {
  release_year : Z;
  budget : Qc;
  revenue : Qc;
}.

Record adjusted_row := AdjustedRow {
  inflation_factor : option Qc;
  budget_adj : option Qc;
  adjusted_revenue : option Qc;
}.

(** Lines 50-66 on the rows of the frame. *)
Definition adjust_for_inflation (cpi_inflate : Z → result Qc) (current_year : Z)
    (rows : list money_row) : list adjusted_row :=
  let unique_years := pd_unique [] (release_year <$> rows) in
  let multipliers := inflation_multipliers cpi_inflate current_year unique_years in
  (λ row,
     let factor := multipliers !! release_year row in
     AdjustedRow factor
       ((λ f, budget row * f) <$> factor)
       ((λ f, revenue row * f) <$> factor)) <$> rows.

(** ** [run_pipeline.py] *)

Definition PIPELINE : list string :=
  ["01_fetch_data.py"; "02_clean_data.py"; "03_feature_engineering.py";
   "04_eda.py"; "05_modeling.py"].

(** How [main] ends: it returns, or calls [sys.exit(1)]. *)
Inductive pipeline_end := Completed | Exit1.

(** The loop of lines 22-37. [script_exists] stands for [os.path.exists] on
    the script's path and [returncode] for the return code of running it;
    the result lists the scripts that were run, in order. *)
Fixpoint run_scripts (script_exists : string → bool) (returncode : string → Z)
    (scripts : list string) : list string * pipeline_end :=
  match scripts with
  | [] => ([], Completed)
  | script_name :: rest =>
      if negb (script_exists script_name) then ([], Exit1)
      else if bool_decide (returncode script_name ≠ 0%Z) then ([script_name], Exit1)
      else
        let '(ran, e) := run_scripts script_exists returncode rest in
        (script_name :: ran, e)
  end.

Definition run_pipeline (script_exists : string → bool) (returncode : string → Z)
    : list string * pipeline_end :=
  run_scripts script_exists returncode PIPELINE.

(** ** Vocabulary of the statements *)

(** A crew member that is a dict whose ["job"] is the string "Director". *)
Definition directs (member : pyval) : Prop :=
  ∃ kvs, member = PDict kvs ∧ assoc "job" kvs = Some (PStr "Director").

(** The value [member.get('name')] yields on a dict. *)
Definition name_of (member : pyval) (v : pyval) : Prop :=
  ∃ kvs, member = PDict kvs ∧ v = default PNone (assoc "name" kvs).

(** A column of the season (resp. genre) indicator family. *)
Definition season_family (name : string) : Prop := String.prefix "season_" name = true.
Definition genre_family (name : string) : Prop := String.prefix "genre_" name = true.

(** Sum and mean of a list of revenues; the mean of no revenue is 0. *)
Definition sum_of (xs : list Qc) : Qc := foldr Qcplus 0 xs.
Definition mean_of (xs : list Qc) : Qc :=
  if bool_decide (xs = []) then 0 else sum_of xs / Qc_of_Z (Z.of_nat (length xs)).

(** The revenues of the rows of [past] whose entity in role [r] is [e], and
    the score they give a next movie of [e]. *)
Definition past_revenues (r : role) (e : string) (past : list movie) : list Qc :=
  revenue_adj <$> filter (λ m, entity r m = e) past.
Definition past_mean (r : role) (e : string) (past : list movie) : Qc :=
  if bool_decide (e = "Unknown") then 0 else mean_of (past_revenues r e past).

(** The scores of [rows] processed after [past]. *)
Fixpoint scores_after (r : role) (past rows : list movie) : list Qc :=
  match rows with
  | [] => []
  | m :: rest => past_mean r (entity r m) past :: scores_after r (past ++ [m]) rest
  end.

(** The ledger of role [r] holds exactly the entities seen in [past], each
    with the sum and the number of its revenues. *)
Definition tracks (r : role) (past : list movie) (L : ledger) : Prop :=
  ∀ e,
    (e ≠ "Unknown" → past_revenues r e past ≠ [] →
       rev_sum L !! e = Some (sum_of (past_revenues r e past)) ∧
       rev_count L !! e = Some (Z.of_nat (length (past_revenues r e past)))) ∧
    (e = "Unknown" ∨ past_revenues r e past = [] →
       rev_sum L !! e = None ∧ rev_count L !! e = None).



(** ** Sample inputs *)

(** The character [chr(34)], and a JSON string literal. *)
Definition dquote : Ascii.ascii := Ascii.ascii_of_nat 34.
Definition quoted (s : string) : string := String dquote (s +:+ String dquote "").

(** The text [[{"job": "Director"}]] and the value [json.loads] gives for it;
    [loads_sample] parses that text and rejects every other. *)
Definition crew_without_name : string :=
  "[{" +:+ quoted "job" +:+ ": " +:+ quoted "Director" +:+ "}]".
Definition loads_sample (s : string) : result pyval :=
  if bool_decide (s = crew_without_name)
  then Ok (PList [PDict [("job", PStr "Director")]])
  else Raise JSONDecodeError.

(** The inference scenario: the trained columns and the widgets' values. *)
Definition schema_holiday : list string :=
  ["budget_adj"; "runtime"; "is_franchise"; "director_score"; "actor_score";
   "season_Holiday_Season"; "genre_Action"].
Definition ui_with_season (label : string) : App.live_input :=
  App.LiveInput (Qc_of_Z 50) (Qc_of_Z 110) label true
    (Qc_of_Z 25 / Qc_of_Z 2) (Qc_of_Z 40) "Action".

(** Three movies by director "A" with revenues of 100, 200 and 300 million,
    then one by director "B". *)
Definition three_by_a_then_b (d1 d2 d3 d4 a1 a2 a3 a4 : string) (r4 : Qc) : list movie :=
  [Movie d1 "A" a1 (Qc_of_Z 100 * million);
   Movie d2 "A" a2 (Qc_of_Z 200 * million);
   Movie d3 "A" a3 (Qc_of_Z 300 * million);
   Movie d4 "B" a4 r4].
Definition corpus_2001_2004 : list movie :=
  three_by_a_then_b "2001-03-09" "2002-07-19" "2003-11-21" "2004-05-14"
    "Unknown" "P" "P" "R" (Qc_of_Z 50 * million).

(** A merge sort by date, one function that meets [sorts_by_date]. It does
    not keep rows of equal date in their input order. *)
Definition merge_sort_by_date : list movie → list movie := merge_sort date_le.

(** Two movies of director "A" released on the same day after a first one. *)
Definition first_of_a : movie := Movie "2000-05-05" "A" "P" (Qc_of_Z 100 * million).
Definition same_day_x : movie := Movie "2001-06-01" "A" "P" (Qc_of_Z 300 * million).
Definition same_day_y : movie := Movie "2001-06-01" "A" "R" (Qc_of_Z 500 * million).
Definition same_day_corpus : list movie := [first_of_a; same_day_x; same_day_y].

(** ** Vocabulary of the further statements *)

(** A dict that holds [n] under ["name"]. *)
Definition has_name (g : pyval) (n : pyval) : Prop :=
  ∃ kvs, g = PDict kvs ∧ assoc "name" kvs = Some n.

(** The widgets' values with another season selected. *)
Definition with_season (label : string) (ui : App.live_input) : App.live_input :=
  App.LiveInput (App.budget ui) (App.runtime ui) label (App.is_franchise ui)
    (App.director_score ui) (App.actor_score ui) (App.primary_genre ui).

(** A season indicator column as training names it: the prefix and a label
    that [get_season] returns. *)
Definition trained_season_col (c : string) : Prop :=
  ∃ month label, get_season month = Ok label ∧ c = "season_" +:+ label.

(** The text [[{"name": "Action"}, {}]] and the value [json.loads] gives for
    it; [loads_genres_sample] parses that text and rejects every other. *)
Definition genres_one_unnamed : string :=
  "[{" +:+ quoted "name" +:+ ": " +:+ quoted "Action" +:+ "}, {}]".
Definition loads_genres_sample (s : string) : result pyval :=
  if bool_decide (s = genres_one_unnamed)
  then Ok (PList [PDict [("name", PStr "Action")]; PDict []])
  else Raise JSONDecodeError.

(** The multiplier lines 56-62 store for year [y]. *)
Definition multiplier_for (cpi_inflate : Z → result Qc) (current_year y : Z) : Qc :=
  if bool_decide (current_year ≤ y)%Z then 1
  else match cpi_inflate y with
       | Ok f => f
       | Raise _ => 1
       end.

(** A price index that knows the years before 2020 only. *)
Definition cpi_sample (y : Z) : result Qc :=
  if bool_decide (y < 2020)%Z then Ok (Qc_of_Z 3 / Qc_of_Z 2) else Raise KeyError.

(** * Properties *)

(** ** Cell parsers *)

Lemma py_eq_str_true v s : py_eq_str v s = true ↔ v = PStr s.
Proof.
  destruct v; simpl; try (split; [discriminate | congruence]).
  rewrite bool_decide_eq_true. split; congruence.
Qed.

Lemma find_director_first crew v :
  find_director crew = Ok v →
  v = PStr "Unknown" ∨
  ∃ pre member post, crew = pre ++ member :: post ∧
    Forall (λ m, ¬ directs m) pre ∧ directs member ∧ name_of member v.
Proof.
  induction crew as [|m rest IH]; simpl; intros E.
  - left. congruence.
  - destruct m as [| | | |xs|kvs]; simpl in E; try discriminate.
    destruct (py_eq_str (default PNone (assoc "job" kvs)) "Director") eqn:J.
    + right. exists [], (PDict kvs), rest. split_and!; [done|constructor| |].
      * apply py_eq_str_true in J. exists kvs. split; [done|].
        destruct (assoc "job" kvs); simpl in J; congruence.
      * exists kvs. split; [done|]. simpl in E. congruence.
    + destruct (IH E) as [->|(pre & member & post & -> & Hpre & Hm & Hn)]; [by left|].
      right. exists (PDict kvs :: pre), member, post. split_and!; try done.
      constructor; [|done]. intros (kvs' & [= <-] & Hj).
      rewrite Hj in J. simpl in J. discriminate.
Qed.

(** C9 (as amended). The derived director is "Unknown" or the value under
    "name" of the first crew member whose job is "Director"; the derived lead
    actor is "Unknown" or the value under "name" of the first cast entry.
    A missing cell, or a text [json.loads] rejects, gives "Unknown", and gives
    the empty list of genres. The value under "name" is returned as it is,
    string or not. *)
Theorem get_director_unknown_or_first_director
    (json_loads : string → result pyval) (crew_str cast_str : cell) :
  (get_director json_loads crew_str = PStr "Unknown" ∨
   ∃ s pre member post,
     crew_str = Text s ∧ json_loads s = Ok (PList (pre ++ member :: post)) ∧
     Forall (λ m, ¬ directs m) pre ∧ directs member ∧
     name_of member (get_director json_loads crew_str)) ∧
  (get_top_actor json_loads cast_str = PStr "Unknown" ∨
   ∃ s first rest,
     cast_str = Text s ∧ json_loads s = Ok (PList (first :: rest)) ∧
     name_of first (get_top_actor json_loads cast_str)) ∧
  get_director json_loads NaN = PStr "Unknown" ∧
  get_top_actor json_loads NaN = PStr "Unknown" ∧
  get_genre_names json_loads NaN = [] ∧
  (∀ s e, json_loads s = Raise e →
     get_director json_loads (Text s) = PStr "Unknown" ∧
     get_top_actor json_loads (Text s) = PStr "Unknown" ∧
     get_genre_names json_loads (Text s) = []).
Proof.
  split_and!; try done;
    try (intros s e L; unfold get_director, get_top_actor, get_genre_names;
         simpl; by rewrite L).
  - destruct crew_str as [|s]; [by left|]. unfold get_director. simpl.
    destruct (json_loads s) as [crew|e] eqn:L; simpl; [|by left].
    destruct crew as [| | |t|xs|kvs]; simpl; try by left.
    + destruct (find_director _) eqn:F; [|by left].
      apply find_director_first in F as [->|(pre & m & post & E & _ & (k & -> & _) & _)];
        [by left|].
      exfalso. revert E. generalize (String.list_ascii_of_string t). clear.
      intros l E. apply (f_equal (λ l, l !! length pre)) in E.
      rewrite list_lookup_fmap, list_lookup_middle in E by done.
      destruct (l !! length pre); simpl in E; discriminate.
    + destruct (find_director xs) eqn:F; [|by left].
      apply find_director_first in F as [->|(pre & m & post & -> & ? & ? & ?)];
        [by left|].
      right. by exists s, pre, m, post.
    + destruct (find_director _) eqn:F; [|by left].
      apply find_director_first in F as [->|(pre & m & post & E & _ & (k & -> & _) & _)];
        [by left|].
      exfalso. apply (f_equal (λ l, l !! length pre)) in E.
      rewrite list_lookup_fmap, list_lookup_middle in E by done.
      destruct (kvs.*1 !! length pre); simpl in E; discriminate.
  - destruct cast_str as [|s]; [by left|]. unfold get_top_actor. simpl.
    destruct (json_loads s) as [cast|e] eqn:L; simpl; [|by left].
    destruct cast as [| | |t|xs|kvs]; simpl; try by left.
    + destruct t; simpl; by left.
    + destruct xs as [|first rest]; simpl; [by left|].
      destruct first as [| | | |ys|kvs]; simpl; try by left.
      right. exists s, (PDict kvs), rest. split_and!; try done. by exists kvs.
    + case_bool_decide; by left.
Qed.

Lemma get_director_unknown_or_first_director_witness :
  get_director loads_sample (Text "not json") = PStr "Unknown".
Proof.
  destruct (get_director_unknown_or_first_director loads_sample NaN NaN)
    as (_ & _ & _ & _ & _ & H).
  exact (proj1 (H "not json" JSONDecodeError eq_refl)).
Defined.

(** C9 (as stated) fails: for the crew text [[{"job": "Director"}]] the
    derived director is [None], which is not a string. *)
Lemma get_director_not_always_str :
  get_director loads_sample (Text crew_without_name) = PNone ∧
  ¬ is_str (get_director loads_sample (Text crew_without_name)).
Proof. split; [reflexivity|]. simpl. tauto. Qed.

(** Case analysis on the membership tests of [get_season]. *)
Ltac by_month :=
  repeat match goal with
  | |- context [bool_decide ?P] =>
      destruct (decide P);
      [rewrite (bool_decide_eq_true_2 P) by assumption
      |rewrite (bool_decide_eq_false_2 P) by assumption]
  end.

(** C10. A month that [int()] converts gets one of the four season labels,
    by the integer's value: 5, 6, 7 Summer_Blockbuster; 11, 12
    Holiday_Season; 1, 2, 8, 9 Dump_Months; every other integer, so also every
    one outside 1..12, Spring_Fall. "Unknown" is returned exactly for a
    missing month. *)
Theorem get_season_four_labels (month : month_cell) :
  (∀ z, month_int month = Ok z →
     ∃ label, get_season month = Ok label ∧
       label ∈ ["Summer_Blockbuster"; "Holiday_Season"; "Dump_Months"; "Spring_Fall"] ∧
       (z ∈ [5; 6; 7]%Z → label = "Summer_Blockbuster") ∧
       (z ∈ [11; 12]%Z → label = "Holiday_Season") ∧
       (z ∈ [1; 2; 8; 9]%Z → label = "Dump_Months") ∧
       (z ∈ [3; 4; 10]%Z → label = "Spring_Fall") ∧
       (¬ (1 ≤ z ≤ 12)%Z → label = "Spring_Fall")) ∧
  (get_season month = Ok "Unknown" ↔ month = MonthNaN).
Proof.
  split.
  - intros z Hz. destruct month as [| |q]; simpl in Hz; try discriminate.
    injection Hz as <-. simpl.
    by_month; eexists; (split; [reflexivity|]);
      (split; [rewrite !elem_of_cons; auto 10|]);
      split_and!; intros Hin; try reflexivity; exfalso;
      rewrite ?elem_of_cons, ?elem_of_nil in *; lia.
  - split; [|by intros ->].
    destruct month as [| |q]; simpl; [done|discriminate|].
    by_month; discriminate.
Qed.

Lemma get_season_four_labels_witness :
  ∃ label, get_season (MonthNum (Qc_of_Z 13)) = Ok label ∧ label = "Spring_Fall".
Proof.
  destruct (get_season_four_labels (MonthNum (Qc_of_Z 13))) as [H _].
  destruct (H 13%Z eq_refl) as (label & E & _ & _ & _ & _ & _ & Hout).
  exists label. split; [exact E|]. apply Hout. lia.
Defined.

(** ** The inference row of [app.py] *)

Section Pydict.
Import App.
Implicit Types (d : pydict) (k : string) (v : Qc).

Lemma setitem_keys_in k v d : k ∈ d.*1 → (setitem k v d).*1 = d.*1.
Proof.
  induction d as [|[k' v'] d IH]; simpl.
  - by intros ?%elem_of_nil.
  - case_bool_decide as E; simpl; [done|].
    intros [->|Hin]%elem_of_cons; [done|]. f_equal. by apply IH.
Qed.

Lemma setitem_keys_notin k v d : k ∉ d.*1 → (setitem k v d).*1 = d.*1 ++ [k].
Proof.
  induction d as [|[k' v'] d IH]; simpl; [done|].
  intros [Hne Hnin]%not_elem_of_cons.
  rewrite bool_decide_eq_false_2 by done. simpl. f_equal. by apply IH.
Qed.

Lemma lookup_setitem k v d k' :
  lookup k' (setitem k v d) = if bool_decide (k = k') then Some v else lookup k' d.
Proof.
  induction d as [|[k1 v1] d IH]; simpl.
  - by repeat case_bool_decide.
  - destruct (decide (k1 = k)) as [->|Hk].
    + rewrite (bool_decide_eq_true_2 (k = k)) by done. simpl.
      by case_bool_decide.
    + rewrite (bool_decide_eq_false_2 (k1 = k)) by done. simpl. rewrite IH.
      repeat case_bool_decide; congruence.
Qed.

Lemma lookup_None k d : lookup k d = None ↔ k ∉ d.*1.
Proof.
  induction d as [|[k' v'] d IH]; simpl.
  - split; [intros _; apply not_elem_of_nil|done].
  - rewrite not_elem_of_cons. case_bool_decide as E; [subst; split; [done|tauto]|].
    rewrite IH. split; [by split; [congruence|]|tauto].
Qed.

Lemma lookup_elem k v d : NoDup d.*1 → (k, v) ∈ d → lookup k d = Some v.
Proof.
  induction d as [|[k' v'] d IH]; simpl; [by intros _ ?%elem_of_nil|].
  intros [Hnin Hnd]%NoDup_cons [[= -> ->]|Hin]%elem_of_cons.
  - by rewrite bool_decide_eq_true_2.
  - rewrite bool_decide_eq_false_2; [by apply IH|].
    intros ->. apply Hnin. apply list_elem_of_fmap. by exists (k, v).
Qed.

Lemma lookup_at_index k d i :
  NoDup d.*1 → d.*1 !! i = Some k → d.*2 !! i = lookup k d.
Proof.
  revert i. induction d as [|[k' v'] d IH]; simpl; [done|].
  intros [|i] [Hnin Hnd]%NoDup_cons Hi; simpl in *.
  - injection Hi as ->. by rewrite bool_decide_eq_true_2.
  - rewrite bool_decide_eq_false_2; [by apply IH|].
    intros ->. apply Hnin. by eapply list_elem_of_lookup_2.
Qed.

Lemma setitem_NoDup k v d : NoDup d.*1 → NoDup (setitem k v d).*1.
Proof.
  intros Hnd. destruct (decide (k ∈ d.*1)).
  - by rewrite setitem_keys_in.
  - rewrite setitem_keys_notin by done. apply NoDup_app. split_and!; [done| |].
    + intros x Hx ->%list_elem_of_singleton. done.
    + apply NoDup_singleton.
Qed.

(** The comprehension, from any dictionary built so far. *)
Lemma zeros_from_keys cols d :
  NoDup (d.*1 ++ cols) →
  (foldl (λ d col, setitem col 0 d) d cols).*1 = d.*1 ++ cols.
Proof.
  revert d. induction cols as [|c cols IH]; intros d Hnd; simpl.
  - by rewrite app_nil_r.
  - assert (c ∉ d.*1) as Hc.
    { apply NoDup_app in Hnd as (_ & Hd & _). intros Hin. apply (Hd c Hin). left. }
    rewrite IH; rewrite setitem_keys_notin by done; rewrite <-?app_assoc; done.
Qed.

Lemma zeros_from_lookup cols d k :
  lookup k (foldl (λ d col, setitem col 0 d) d cols)
  = if bool_decide (k ∈ cols) then Some 0 else lookup k d.
Proof.
  revert d. induction cols as [|c cols IH]; intros d; simpl.
  - done.
  - rewrite IH, lookup_setitem.
    repeat case_bool_decide; try done; exfalso;
      rewrite elem_of_cons in *; intuition congruence.
Qed.

Lemma zeros_from_NoDup cols d :
  NoDup d.*1 → NoDup (foldl (λ d col, setitem col 0 d) d cols).*1.
Proof.
  revert d. induction cols as [|c cols IH]; intros d Hnd; simpl; [done|].
  by apply IH, setitem_NoDup.
Qed.

Lemma zeros_keys schema : NoDup schema → (zeros schema).*1 = schema.
Proof. intros Hnd. unfold zeros. by rewrite zeros_from_keys. Qed.

Lemma lookup_zeros schema k :
  lookup k (zeros schema) = if bool_decide (k ∈ schema) then Some 0 else None.
Proof. unfold zeros. by rewrite zeros_from_lookup. Qed.

Lemma set_if_present_keys k d : (set_if_present k d).*1 = d.*1.
Proof.
  unfold set_if_present, contains. case_bool_decide; [|done].
  by apply setitem_keys_in.
Qed.

Lemma lookup_set_if_present k d k' :
  lookup k' (set_if_present k d)
  = if bool_decide (k = k') && bool_decide (k ∈ d.*1) then Some 1 else lookup k' d.
Proof.
  unfold set_if_present, contains. case_bool_decide.
  - rewrite lookup_setitem. by case_bool_decide.
  - by rewrite andb_false_r.
Qed.
End Pydict.

Section Build.
Import App.
Implicit Types (schema : list string) (ui : live_input).

Lemma season_col_not_numeric ui : season_col ui ∉ numeric_cols.
Proof.
  unfold season_col, numeric_cols. rewrite !not_elem_of_cons.
  split_and!; try discriminate. apply not_elem_of_nil.
Qed.

Lemma genre_col_not_numeric ui : genre_col ui ∉ numeric_cols.
Proof.
  unfold genre_col, numeric_cols. rewrite !not_elem_of_cons.
  split_and!; try discriminate. apply not_elem_of_nil.
Qed.

Lemma season_col_not_genre ui ui' : season_col ui ≠ genre_col ui'.
Proof. discriminate. Qed.

Lemma season_family_not_numeric name : season_family name → name ∉ numeric_cols.
Proof.
  unfold season_family, numeric_cols. intros Hp. rewrite !not_elem_of_cons.
  split_and!; try (intros ->; discriminate). apply not_elem_of_nil.
Qed.

Lemma genre_family_not_numeric name : genre_family name → name ∉ numeric_cols.
Proof.
  unfold genre_family, numeric_cols. intros Hp. rewrite !not_elem_of_cons.
  split_and!; try (intros ->; discriminate). apply not_elem_of_nil.
Qed.

Lemma season_family_not_genre name ui : season_family name → name ≠ genre_col ui.
Proof. unfold season_family. intros Hp ->. discriminate. Qed.

Lemma genre_family_not_season name ui : genre_family name → name ≠ season_col ui.
Proof. unfold genre_family. intros Hp ->. discriminate. Qed.

Lemma input_data_unfold schema ui :
  input_data schema ui
  = set_if_present (genre_col ui) (set_if_present (season_col ui) (numeric_data schema ui)).
Proof. reflexivity. Qed.

Lemma setitem_keys_elem k v d x : x ∈ (setitem k v d).*1 → x = k ∨ x ∈ d.*1.
Proof.
  destruct (decide (k ∈ d.*1)).
  - rewrite setitem_keys_in by done. by right.
  - rewrite setitem_keys_notin by done.
    intros [?|?%list_elem_of_singleton]%elem_of_app; [by right|by left].
Qed.

Lemma zeros_keys_elem schema x : x ∈ (zeros schema).*1 ↔ x ∈ schema.
Proof.
  destruct (decide (x ∈ (zeros schema).*1)) as [Hin|Hnin].
  - split; [intros _|done]. apply dec_stable. intros Hx.
    apply lookup_None in Hin; [done|].
    by rewrite lookup_zeros, bool_decide_eq_false_2.
  - split; [done|]. intros Hx. apply lookup_None in Hnin.
    by rewrite lookup_zeros, bool_decide_eq_true_2 in Hnin.
Qed.

Lemma numeric_data_keys_elem schema ui x :
  x ∈ (numeric_data schema ui).*1 → x ∈ numeric_cols ∨ x ∈ schema.
Proof.
  unfold numeric_data, numeric_cols. rewrite !elem_of_cons.
  repeat (intros [->|H]%setitem_keys_elem; [tauto|revert H]).
  rewrite zeros_keys_elem. tauto.
Qed.

Lemma numeric_data_keys schema ui :
  NoDup schema → numeric_cols ⊆ schema → (numeric_data schema ui).*1 = schema.
Proof.
  intros Hnd Hsub. unfold numeric_data.
  assert (∀ k v d, k ∈ numeric_cols → d.*1 = schema → (setitem k v d).*1 = schema)
    as Hstep.
  { intros k v d Hk Hd. rewrite setitem_keys_in; [done|].
    rewrite Hd. by apply Hsub. }
  unfold numeric_cols in Hstep.
  repeat (apply Hstep; [rewrite !elem_of_cons; tauto|]).
  by apply zeros_keys.
Qed.

Lemma numeric_data_NoDup schema ui : NoDup (numeric_data schema ui).*1.
Proof.
  unfold numeric_data. repeat apply setitem_NoDup.
  apply zeros_from_NoDup. constructor.
Qed.

Lemma input_data_NoDup schema ui : NoDup (input_data schema ui).*1.
Proof.
  rewrite input_data_unfold, !set_if_present_keys. apply numeric_data_NoDup.
Qed.

Lemma lookup_numeric_data_other schema ui k :
  k ∉ numeric_cols →
  lookup k (numeric_data schema ui)
  = if bool_decide (k ∈ schema) then Some 0 else None.
Proof.
  unfold numeric_cols. rewrite !not_elem_of_cons. intros (?&?&?&?&?&_).
  unfold numeric_data. rewrite !lookup_setitem, lookup_zeros.
  by rewrite !bool_decide_eq_false_2 by done.
Qed.
End Build.

Section BuildClaims.
Import App.
Implicit Types (schema : list string) (ui : live_input).

Lemma input_data_keys schema ui :
  NoDup schema → numeric_cols ⊆ schema → input_columns schema ui = schema.
Proof.
  intros Hnd Hsub. unfold input_columns.
  rewrite input_data_unfold, !set_if_present_keys. by apply numeric_data_keys.
Qed.

Lemma input_row_length schema ui :
  NoDup schema → numeric_cols ⊆ schema →
  length (input_row schema ui) = length schema.
Proof.
  intros Hnd Hsub.
  transitivity (length (input_columns schema ui)).
  - unfold input_row, input_columns. by rewrite !length_fmap.
  - by rewrite input_data_keys.
Qed.

Lemma lookup_input_data schema ui k :
  lookup k (input_data schema ui)
  = if bool_decide (genre_col ui = k)
          && bool_decide (genre_col ui ∈ (numeric_data schema ui).*1)
    then Some 1
    else if bool_decide (season_col ui = k)
              && bool_decide (season_col ui ∈ (numeric_data schema ui).*1)
    then Some 1
    else lookup k (numeric_data schema ui).
Proof.
  rewrite input_data_unfold, !lookup_set_if_present.
  by rewrite set_if_present_keys.
Qed.

(** C4 (as amended). For a duplicate-free schema that lists the five
    numeric names, the row has the schema's columns in the schema's order
    and as many entries; the entry at a numeric name is the widget's value,
    the entry at the selected season or genre indicator is 1, and every
    other entry is 0. *)
Theorem input_row_aligned_with_schema schema ui :
  NoDup schema → numeric_cols ⊆ schema →
  input_columns schema ui = schema ∧
  length (input_row schema ui) = length schema ∧
  ∀ i name, schema !! i = Some name →
    ∃ v, input_row schema ui !! i = Some v ∧
      (name = "budget_adj" → v = budget ui * million) ∧
      (name = "runtime" → v = runtime ui) ∧
      (name = "is_franchise" → v = if is_franchise ui then 1 else 0) ∧
      (name = "director_score" → v = director_score ui) ∧
      (name = "actor_score" → v = actor_score ui) ∧
      (name = season_col ui → v = 1) ∧
      (name = genre_col ui → v = 1) ∧
      (name ∉ numeric_cols → name ≠ season_col ui → name ≠ genre_col ui → v = 0).
Proof.
  intros Hnd Hsub. pose proof (input_data_keys schema ui Hnd Hsub) as Hkeys.
  split; [done|]. split; [by apply input_row_length|].
  intros i name Hi.
  assert (name ∈ schema) as Hname by (by eapply list_elem_of_lookup_2).
  pose proof (lookup_at_index name (input_data schema ui) i
                (input_data_NoDup schema ui)) as Hrow.
  unfold input_columns in Hkeys. rewrite Hkeys in Hrow. specialize (Hrow Hi).
  unfold input_row. rewrite Hrow, lookup_input_data.
  rewrite (numeric_data_keys schema ui Hnd Hsub).
  pose proof (season_col_not_numeric ui) as Hs.
  pose proof (genre_col_not_numeric ui) as Hg.
  pose proof (season_col_not_genre ui ui) as Hsg.
  unfold numeric_cols in Hs, Hg. rewrite !not_elem_of_cons in Hs, Hg.
  destruct (decide (genre_col ui = name)) as [Eg|Ng].
  { rewrite !bool_decide_eq_true_2 by (by rewrite ?Eg). simpl.
    eexists; split; [done|].
    split_and!; try done; intros ->; exfalso; intuition congruence. }
  rewrite (bool_decide_eq_false_2 (genre_col ui = name)) by done. simpl.
  destruct (decide (season_col ui = name)) as [Es|Ns].
  { rewrite !bool_decide_eq_true_2 by (by rewrite ?Es). simpl.
    eexists; split; [done|].
    split_and!; try done; intros ->; exfalso; intuition congruence. }
  rewrite (bool_decide_eq_false_2 (season_col ui = name)) by done. simpl.
  unfold numeric_data. rewrite !lookup_setitem, lookup_zeros.
  rewrite (bool_decide_eq_true_2 (name ∈ schema)) by done.
  repeat case_bool_decide; subst; eexists; (split; [done|]);
    split_and!; intros; try done; try congruence; exfalso;
    match goal with
    | H : _ ∉ numeric_cols |- _ =>
        apply H; unfold numeric_cols; rewrite !elem_of_cons; tauto
    end.
Qed.

Lemma input_row_aligned_with_schema_witness :
  input_columns schema_holiday (ui_with_season "Holiday Season") = schema_holiday.
Proof.
  apply (input_row_aligned_with_schema schema_holiday (ui_with_season "Holiday Season")).
  - unfold schema_holiday. compute_done.
  - unfold numeric_cols, schema_holiday. intros k Hk.
    rewrite !elem_of_cons in *. tauto.
Defined.

(** C4 (as stated) fails: the numeric writes are not conditional on the
    schema. On the one-column schema ["genre_Action"] the five numeric
    names are appended as new columns, and the row has six entries. *)
Lemma input_row_adds_unlisted_numeric_columns :
  input_columns ["genre_Action"] (ui_with_season "Holiday Season")
  = ["genre_Action"; "budget_adj"; "runtime"; "is_franchise";
     "director_score"; "actor_score"] ∧
  length (input_row ["genre_Action"] (ui_with_season "Holiday Season"))
  ≠ length ["genre_Action"].
Proof. split; [reflexivity|]. vm_compute. discriminate. Qed.

(** C7 (as amended). When the selected season (resp. genre) indicator is
    not a column of the schema, every entry of the season (resp. genre)
    family is 0, for every schema; the builder is a total function, so
    nothing is raised. The row has the schema's length when the schema is
    duplicate-free and lists the five numeric names. *)
Theorem unknown_category_sets_no_indicator schema ui :
  (season_col ui ∉ schema →
     ∀ name v, (name, v) ∈ input_data schema ui → season_family name → v = 0) ∧
  (genre_col ui ∉ schema →
     ∀ name v, (name, v) ∈ input_data schema ui → genre_family name → v = 0) ∧
  (NoDup schema → numeric_cols ⊆ schema →
     input_columns schema ui = schema ∧
     length (input_row schema ui) = length schema).
Proof.
  split_and!.
  - intros Habs name v Hin Hfam.
    apply lookup_elem in Hin; [|apply input_data_NoDup].
    rewrite lookup_input_data in Hin.
    rewrite (bool_decide_eq_false_2 (genre_col ui = name)) in Hin
      by (intros E; by apply (season_family_not_genre name ui)).
    rewrite (bool_decide_eq_false_2 (season_col ui ∈ _)) in Hin.
    2:{ intros [?|?]%numeric_data_keys_elem; [|done].
        by apply (season_col_not_numeric ui). }
    rewrite andb_false_r in Hin. simpl in Hin.
    rewrite lookup_numeric_data_other in Hin by by apply season_family_not_numeric.
    case_bool_decide; congruence.
  - intros Habs name v Hin Hfam.
    apply lookup_elem in Hin; [|apply input_data_NoDup].
    rewrite lookup_input_data in Hin.
    rewrite (bool_decide_eq_false_2 (genre_col ui ∈ _)) in Hin.
    2:{ intros [?|?]%numeric_data_keys_elem; [|done].
        by apply (genre_col_not_numeric ui). }
    rewrite andb_false_r in Hin.
    rewrite (bool_decide_eq_false_2 (season_col ui = name)) in Hin
      by (intros E; by apply (genre_family_not_season name ui)).
    simpl in Hin.
    rewrite lookup_numeric_data_other in Hin by by apply genre_family_not_numeric.
    case_bool_decide; congruence.
  - intros Hnd Hsub. split; [by apply input_data_keys|by apply input_row_length].
Qed.

Lemma unknown_category_sets_no_indicator_witness :
  length (input_row schema_holiday (ui_with_season "Spring Fall"))
  = length schema_holiday ∧
  ∀ name v,
    (name, v) ∈ input_data schema_holiday (ui_with_season "Spring Fall") →
    season_family name → v = 0.
Proof.
  destruct (unknown_category_sets_no_indicator schema_holiday
              (ui_with_season "Spring Fall")) as (Hseason & _ & Hlen).
  split.
  - apply Hlen.
    + unfold schema_holiday. compute_done.
    + unfold numeric_cols, schema_holiday. intros k Hk.
      rewrite !elem_of_cons in *. tauto.
  - apply Hseason. unfold schema_holiday. compute_done.
Defined.

(** C7 (as stated) fails on the length: on a schema without the numeric
    names the row is longer than the schema, here 7 entries for 2 columns,
    although the selected season is not a column. *)
Lemma unknown_category_row_longer_than_schema :
  (season_col (ui_with_season "Spring Fall")
     ∉ ["season_Summer_Blockbuster"; "genre_Action"]) ∧
  length (input_row ["season_Summer_Blockbuster"; "genre_Action"]
            (ui_with_season "Spring Fall")) = 7%nat ∧
  length (input_row ["season_Summer_Blockbuster"; "genre_Action"]
            (ui_with_season "Spring Fall"))
  ≠ length ["season_Summer_Blockbuster"; "genre_Action"].
Proof. split_and!; [compute_done|reflexivity|vm_compute; discriminate]. Qed.

(** C1. What the code returns in the scenario. The season selectbox offers
    "Holiday Season" with a space, the trained column is
    "season_Holiday_Season" with an underscore, so the membership test on
    line 66 fails and the season slot stays 0: the row is
    [50000000, 110, 1, 12.5, 40, 0, 1], the same as for "Spring Fall". Only
    the label "Holiday_Season", which the selectbox does not offer, sets
    the slot. *)
Theorem holiday_scenario_season_slot_is_zero :
  input_columns schema_holiday (ui_with_season "Holiday Season") = schema_holiday ∧
  input_row schema_holiday (ui_with_season "Holiday Season")
  = [Qc_of_Z 50 * million; Qc_of_Z 110; 1; Qc_of_Z 25 / Qc_of_Z 2; Qc_of_Z 40; 0; 1] ∧
  input_row schema_holiday (ui_with_season "Spring Fall")
  = [Qc_of_Z 50 * million; Qc_of_Z 110; 1; Qc_of_Z 25 / Qc_of_Z 2; Qc_of_Z 40; 0; 1] ∧
  input_row schema_holiday (ui_with_season "Holiday_Season")
  = [Qc_of_Z 50 * million; Qc_of_Z 110; 1; Qc_of_Z 25 / Qc_of_Z 2; Qc_of_Z 40; 1; 1] ∧
  season_col (ui_with_season "Holiday Season") ∉ schema_holiday.
Proof. split_and!; try reflexivity. compute_done. Qed.
End BuildClaims.

(** ** The rolling-average pass *)

Lemma sum_of_snoc xs x : sum_of (xs ++ [x]) = sum_of xs + x.
Proof.
  induction xs as [|y xs IH]; simpl.
  - by rewrite Qcplus_0_r, Qcplus_0_l.
  - rewrite IH. by rewrite Qcplus_assoc.
Qed.

Lemma past_revenues_snoc r e past m :
  past_revenues r e (past ++ [m])
  = past_revenues r e past ++ (if bool_decide (entity r m = e) then [revenue_adj m] else []).
Proof.
  unfold past_revenues. rewrite filter_app, fmap_app. f_equal.
  rewrite filter_cons, filter_nil. by repeat case_decide; case_bool_decide.
Qed.

Lemma tracks_empty r : tracks r [] empty_ledger.
Proof. intros e. split; [done|]. intros _. simpl. by rewrite !lookup_empty. Qed.

Lemma entity_step_tracks r past L m :
  tracks r past L →
  ∃ L', entity_step (entity r m) (revenue_adj m) L = Ok L' ∧
        tracks r (past ++ [m]) L' ∧
        scores L' = scores L ++ [past_mean r (entity r m) past].
Proof.
  intros HL. unfold entity_step, past_mean.
  destruct (decide (entity r m = "Unknown")) as [Hu|Hu].
  - rewrite (bool_decide_eq_false_2 (entity r m ≠ "Unknown")) by tauto. simpl.
    rewrite (bool_decide_eq_true_2 _ Hu).
    eexists. split_and!; [done| |done].
    intros e. rewrite past_revenues_snoc. simpl.
    case_bool_decide as He; [|rewrite app_nil_r; apply HL].
    split; [congruence|]. intros _. apply HL. left. congruence.
  - rewrite (bool_decide_eq_true_2 (entity r m ≠ "Unknown")) by done.
    rewrite (bool_decide_eq_false_2 _ Hu). simpl.
    destruct (HL (entity r m)) as [Hsome Hnone].
    destruct (decide (past_revenues r (entity r m) past = [])) as [Hnil|Hcons].
    + destruct Hnone as [Hs Hc]; [by right|].
      rewrite bool_decide_eq_false_2 by (rewrite Hs; by intros [? ?]). simpl.
      eexists. split_and!; [done| |].
      * intros e. rewrite past_revenues_snoc. simpl.
        destruct (decide (entity r m = e)) as [<-|Hne].
        -- rewrite bool_decide_eq_true_2 by done. rewrite Hnil. simpl.
           rewrite !lookup_insert_eq. split; [|intros [?|?]; done].
           intros _ _. by rewrite Qcplus_0_r.
        -- rewrite bool_decide_eq_false_2 by done. rewrite app_nil_r.
           rewrite !lookup_insert_ne by done. apply HL.
      * simpl. unfold mean_of. by rewrite bool_decide_eq_true_2.
    + destruct Hsome as [Hs Hc]; [done..|].
      rewrite bool_decide_eq_true_2 by (by rewrite Hs). simpl.
      unfold getitem. rewrite Hs, Hc. simpl. unfold py_div.
      rewrite bool_decide_eq_false_2.
      2:{ destruct (past_revenues r (entity r m) past); [done|]. simpl. lia. }
      simpl. eexists. split_and!; [done| |].
      * intros e. rewrite past_revenues_snoc. simpl.
        destruct (decide (entity r m = e)) as [<-|Hne].
        -- rewrite bool_decide_eq_true_2 by done.
           rewrite !lookup_insert_eq. split.
           ++ intros _ _. rewrite sum_of_snoc, length_app. simpl.
              split; [done|]. f_equal. lia.
           ++ intros [?|Happ]; [done|]. by apply app_eq_nil in Happ as [_ ?].
        -- rewrite bool_decide_eq_false_2 by done. rewrite app_nil_r.
           rewrite !lookup_insert_ne by done. apply HL.
      * simpl. unfold mean_of. by rewrite bool_decide_eq_false_2.
Qed.

Lemma loop_tracks rows : ∀ past dl al,
  tracks Directing past dl → tracks Acting past al →
  ∃ dl' al', loop rows (dl, al) = Ok (dl', al') ∧
    tracks Directing (past ++ rows) dl' ∧ tracks Acting (past ++ rows) al' ∧
    scores dl' = scores dl ++ scores_after Directing past rows ∧
    scores al' = scores al ++ scores_after Acting past rows.
Proof.
  induction rows as [|m rows IH]; intros past dl al Hd Ha; simpl.
  - exists dl, al. by rewrite !app_nil_r.
  - destruct (entity_step_tracks Directing past dl m Hd) as (dl1 & Ed & Hd1 & Sd).
    destruct (entity_step_tracks Acting past al m Ha) as (al1 & Ea & Ha1 & Sa).
    unfold row_step. simpl in *. rewrite Ed. simpl. rewrite Ea. simpl.
    destruct (IH (past ++ [m]) dl1 al1 Hd1 Ha1) as (dl' & al' & E & ? & ? & Sd' & Sa').
    exists dl', al'. rewrite <-!app_assoc in *. simpl in *.
    split_and!; try done.
    + by rewrite Sd', Sd, <-app_assoc.
    + by rewrite Sa', Sa, <-app_assoc.
Qed.

Lemma scores_after_length r rows : ∀ past, length (scores_after r past rows) = length rows.
Proof. induction rows as [|m rows IH]; intros past; simpl; [done|]. by rewrite IH. Qed.

Lemma scores_after_lookup r rows : ∀ past i,
  scores_after r past rows !! i
  = (λ m, past_mean r (entity r m) (past ++ take i rows)) <$> rows !! i.
Proof.
  induction rows as [|m rows IH]; intros past [|i]; simpl; try done.
  - by rewrite app_nil_r.
  - rewrite IH. by rewrite <-app_assoc.
Qed.

(** The pass returns, and row [i] of its output is row [i] of the frame
    with, in each role, the mean (in millions) of the revenues of the rows
    before it that have the same entity. *)
Lemma rolling_scores_rows frame :
  ∃ out, rolling_scores frame = Ok out ∧ length out = length frame ∧
    ∀ i m, frame !! i = Some m →
      ∃ s, out !! i = Some s ∧ row_of s = m ∧
        ∀ r, score r s = past_mean r (entity r m) (take i frame) / million.
Proof.
  destruct (loop_tracks frame [] empty_ledger empty_ledger
              (tracks_empty _) (tracks_empty _))
    as (dl & al & E & _ & _ & Sd & Sa).
  unfold rolling_scores. rewrite E. simpl in *. eexists. split; [done|].
  rewrite Sd, Sa. unfold attach, in_millions. split.
  - rewrite length_zip_with, length_zip, !length_fmap, !scores_after_length. lia.
  - intros i m Hi. rewrite lookup_zip_with, Hi. simpl.
    rewrite lookup_zip_with, !list_lookup_fmap, !scores_after_lookup, Hi. simpl.
    eexists. split; [done|]. split; [done|]. by intros [].
Qed.

Lemma tracks_count_positive r past L e c :
  tracks r past L → rev_count L !! e = Some c →
  e ≠ "Unknown" ∧ (1 ≤ c)%Z ∧ rev_sum L !! e = Some (sum_of (past_revenues r e past)).
Proof.
  intros HL Hc. destruct (HL e) as [Hsome Hnone].
  destruct (decide (e = "Unknown")) as [->|Hu].
  { destruct Hnone as [_ Hn]; [by left|congruence]. }
  destruct (decide (past_revenues r e past = [])) as [Hnil|Hcons].
  { destruct Hnone as [_ Hn]; [by right|congruence]. }
  destruct (Hsome Hu Hcons) as [Hs Hc']. split_and!; [done| |done].
  rewrite Hc' in Hc. injection Hc as <-.
  destruct (past_revenues r e past); [done|]. simpl. lia.
Qed.

Lemma tracks_sum_has_count r past L e :
  tracks r past L → is_Some (rev_sum L !! e) → is_Some (rev_count L !! e).
Proof.
  intros HL [s Hs]. destruct (HL e) as [Hsome Hnone].
  destruct (decide (e = "Unknown")) as [->|Hu].
  { destruct Hnone as [Hn _]; [by left|congruence]. }
  destruct (decide (past_revenues r e past = [])) as [Hnil|Hcons].
  { destruct Hnone as [Hn _]; [by right|congruence]. }
  destruct (Hsome Hu Hcons) as [_ Hc]. by rewrite Hc.
Qed.

Lemma zero_in_millions : 0 / million = 0.
Proof. unfold Qcdiv. apply Qcmult_0_l. Qed.

Lemma past_mean_first r e past :
  Forall (λ x, entity r x ≠ e) past → past_mean r e past = 0.
Proof.
  intros Hall. unfold past_mean. case_bool_decide; [done|].
  unfold mean_of, past_revenues. rewrite bool_decide_eq_true_2; [done|].
  assert (filter (λ m, entity r m = e) past = []) as ->; [|done].
  induction Hall as [|x l Hx _ IH]; [done|].
  rewrite filter_cons. by case_decide.
Qed.

(** C8. Whatever rows have been processed, the pass has not raised; every
    count stored in either ledger is at least 1, and every entity with a
    revenue sum has a count. So the division on lines 108 and 119, reached
    only for an entity that has a sum, divides by a count of at least 1, and
    processing any further row does not raise either. *)
Theorem division_by_count_at_least_one (rows : list movie) :
  ∃ dl al, loop rows (empty_ledger, empty_ledger) = Ok (dl, al) ∧
    (∀ e c, rev_count dl !! e = Some c → (1 ≤ c)%Z) ∧
    (∀ e c, rev_count al !! e = Some c → (1 ≤ c)%Z) ∧
    (∀ e s, rev_sum dl !! e = Some s →
       ∃ c, rev_count dl !! e = Some c ∧ py_div s c = Ok (s / Qc_of_Z c)) ∧
    (∀ e s, rev_sum al !! e = Some s →
       ∃ c, rev_count al !! e = Some c ∧ py_div s c = Ok (s / Qc_of_Z c)) ∧
    (∀ row, ∃ st, row_step row (dl, al) = Ok st).
Proof.
  destruct (loop_tracks rows [] empty_ledger empty_ledger
              (tracks_empty _) (tracks_empty _))
    as (dl & al & E & Hd & Ha & _ & _).
  simpl in Hd, Ha. exists dl, al. split_and!; [done|..].
  - intros e c Hc. by destruct (tracks_count_positive _ _ _ _ _ Hd Hc) as (_ & ? & _).
  - intros e c Hc. by destruct (tracks_count_positive _ _ _ _ _ Ha Hc) as (_ & ? & _).
  - intros e s Hs.
    destruct (tracks_sum_has_count _ _ _ e Hd) as [c Hc]; [by rewrite Hs|].
    exists c. split; [done|].
    destruct (tracks_count_positive _ _ _ _ _ Hd Hc) as (_ & ? & _).
    unfold py_div. rewrite bool_decide_eq_false_2; [done|lia].
  - intros e s Hs.
    destruct (tracks_sum_has_count _ _ _ e Ha) as [c Hc]; [by rewrite Hs|].
    exists c. split; [done|].
    destruct (tracks_count_positive _ _ _ _ _ Ha Hc) as (_ & ? & _).
    unfold py_div. rewrite bool_decide_eq_false_2; [done|lia].
  - intros row.
    destruct (entity_step_tracks Directing rows dl row Hd) as (dl1 & Ed & _).
    destruct (entity_step_tracks Acting rows al row Ha) as (al1 & Ea & _).
    exists (dl1, al1). unfold row_step. simpl in *. rewrite Ed. simpl.
    by rewrite Ea.
Qed.

(** C5. In the output of [main], a movie whose director (resp. lead actor)
    is "Unknown", or does not occur as director (resp. lead actor) of any row
    processed before it, has director (resp. actor) score 0; and neither
    ledger ever holds an entry for "Unknown". *)
Theorem first_appearance_and_unknown_score_zero
    (sort_values : list movie → list movie) (df : list movie) (i : nat) (m : movie) :
  sort_values df !! i = Some m →
  ∃ out s dl al,
    main sort_values df = Ok out ∧ out !! i = Some s ∧ row_of s = m ∧
    loop (sort_values df) (empty_ledger, empty_ledger) = Ok (dl, al) ∧
    (∀ r, entity r m = "Unknown" → score r s = 0) ∧
    (∀ r, Forall (λ x, entity r x ≠ entity r m) (take i (sort_values df)) →
          score r s = 0) ∧
    rev_sum dl !! "Unknown" = None ∧ rev_count dl !! "Unknown" = None ∧
    rev_sum al !! "Unknown" = None ∧ rev_count al !! "Unknown" = None.
Proof.
  intros Hi. unfold main.
  destruct (rolling_scores_rows (sort_values df)) as (out & E & _ & Hrows).
  destruct (Hrows i m Hi) as (s & Hs & Hm & Hscore).
  destruct (loop_tracks (sort_values df) [] empty_ledger empty_ledger
              (tracks_empty _) (tracks_empty _))
    as (dl & al & El & Hd & Ha & _ & _).
  simpl in Hd, Ha.
  exists out, s, dl, al. split_and!; try done.
  - intros r Hu. rewrite Hscore. unfold past_mean.
    rewrite bool_decide_eq_true_2 by done. apply zero_in_millions.
  - intros r Hfirst. rewrite Hscore, past_mean_first by done.
    apply zero_in_millions.
  - by destruct (Hd "Unknown") as [_ [? _]]; [left|].
  - by destruct (Hd "Unknown") as [_ [_ ?]]; [left|].
  - by destruct (Ha "Unknown") as [_ [? _]]; [left|].
  - by destruct (Ha "Unknown") as [_ [_ ?]]; [left|].
Qed.

(** ** The order of release dates *)

Lemma leb_iff a b : String.leb a b = true ↔ a = b ∨ String_as_OT.lt a b.
Proof.
  unfold String.leb. destruct (String.compare a b) eqn:C.
  - apply String_as_OT.cmp_eq in C. tauto.
  - apply String_as_OT.cmp_lt in C. tauto.
  - split; [done|]. intros [->|L].
    + assert (String_as_OT.cmp b b = Eq) as E by by apply String_as_OT.cmp_eq.
      unfold String_as_OT.cmp in E. congruence.
    + apply String_as_OT.cmp_lt in L. unfold String_as_OT.cmp in L. congruence.
Qed.

Lemma ltb_iff a b : String.ltb a b = true ↔ String_as_OT.lt a b.
Proof.
  unfold String.ltb. rewrite <-String_as_OT.cmp_lt. unfold String_as_OT.cmp.
  destruct (String.compare a b); split; congruence.
Qed.

Lemma ltb_trans a b c :
  String.ltb a b = true → String.ltb b c = true → String.ltb a c = true.
Proof. rewrite !ltb_iff. apply String_as_OT.lt_trans. Qed.

#[global] Instance date_le_refl : Reflexive date_le.
Proof. intros x. apply leb_iff. by left. Qed.

#[global] Instance date_le_trans : Transitive date_le.
Proof.
  intros x y z. unfold date_le. rewrite !leb_iff.
  intros [E1|L1] [E2|L2].
  - left. congruence.
  - right. by rewrite E1.
  - right. by rewrite <-E2.
  - right. by eapply String_as_OT.lt_trans.
Qed.

#[global] Instance date_le_total : Total date_le.
Proof. intros x y. apply String.leb_total. Qed.

#[global] Instance date_lt_trans : Transitive date_lt.
Proof.
  intros x y z. unfold date_lt. rewrite !ltb_iff. apply String_as_OT.lt_trans.
Qed.


Lemma date_lt_le x y : date_lt x y → date_le x y.
Proof. unfold date_lt, date_le. rewrite ltb_iff, leb_iff. tauto. Qed.

Lemma date_lt_not_le x y : date_lt x y → ¬ date_le y x.
Proof.
  unfold date_lt, date_le. rewrite ltb_iff, leb_iff. intros L [E|L'].
  - apply String_as_OT.lt_not_eq in L. by apply L.
  - apply (String_as_OT.lt_not_eq _ _ (String_as_OT.lt_trans _ _ _ L L')).
    reflexivity.
Qed.


Lemma date_lt_neq x y : date_lt x y → release_date x ≠ release_date y.
Proof. unfold date_lt. rewrite ltb_iff. apply String_as_OT.lt_not_eq. Qed.

Lemma merge_sort_sorts : sorts_by_date merge_sort_by_date.
Proof.
  intros df. split.
  - apply merge_sort_Permutation.
  - apply StronglySorted_merge_sort; apply _.
Qed.

(** A frame whose dates strictly increase is its own only ascending
    reordering. *)
Lemma ascending_reordering_unique corpus : ∀ frame,
  StronglySorted date_lt corpus → frame ≡ₚ corpus →
  StronglySorted date_le frame → frame = corpus.
Proof.
  induction corpus as [|x l IH]; intros frame Hinc Hperm Hasc.
  - by apply Permutation_nil_r.
  - apply StronglySorted_inv in Hinc as [Hl Hx].
    destruct frame as [|y f]; [by apply Permutation_nil_cons in Hperm|].
    apply StronglySorted_inv in Hasc as [Hf Hy].
    destruct (decide (y = x)) as [->|Hne].
    + f_equal. apply IH; [done| |done]. by eapply Permutation_cons_inv.
    + exfalso.
      assert (y ∈ l) as Hyl.
      { assert (y ∈ x :: l) as [?|?]%elem_of_cons; [|done..].
        rewrite <-Hperm. left. }
      assert (x ∈ f) as Hxf.
      { assert (x ∈ y :: f) as [?|?]%elem_of_cons; [|done..].
        rewrite Hperm. left. }
      rewrite Forall_forall in Hx, Hy.
      apply (date_lt_not_le x y); [by apply Hx|by apply Hy].
Qed.

Section Scenario.
Variable sort_values : list movie → list movie.
Hypothesis sort_values_sorts : sorts_by_date sort_values.

(** C3. Three movies by director "A" released in order with revenues of
    100, 200 and 300 million get director scores 0, 100 and 150, and a later
    fourth movie by director "B" gets 0 (scores in millions). *)
Theorem three_movies_scores_0_100_150 (d1 d2 d3 d4 a1 a2 a3 a4 : string) (r4 : Qc) :
  String.ltb d1 d2 = true → String.ltb d2 d3 = true → String.ltb d3 d4 = true →
  ∃ out,
    main sort_values (three_by_a_then_b d1 d2 d3 d4 a1 a2 a3 a4 r4) = Ok out ∧
    row_of <$> out = three_by_a_then_b d1 d2 d3 d4 a1 a2 a3 a4 r4 ∧
    director_score <$> out = [0; Qc_of_Z 100; Qc_of_Z 150; 0].
Proof.
  intros H12 H23 H34. set (corpus := three_by_a_then_b _ _ _ _ _ _ _ _ _).
  assert (sort_values corpus = corpus) as Hframe.
  { destruct (sort_values_sorts corpus) as [Hperm Hasc].
    apply ascending_reordering_unique; [|done..].
    unfold corpus, three_by_a_then_b.
    repeat first [apply SSorted_nil | apply SSorted_cons
                 | apply Forall_nil_2 | apply Forall_cons_2];
      unfold date_lt; simpl; eauto using ltb_trans. }
  unfold main. rewrite Hframe.
  destruct (rolling_scores_rows corpus) as (out & E & Hlen & Hrows).
  exists out. split; [done|].
  destruct (Hrows 0%nat _ eq_refl) as (s0 & Hs0 & Hm0 & Hsc0).
  destruct (Hrows 1%nat _ eq_refl) as (s1 & Hs1 & Hm1 & Hsc1).
  destruct (Hrows 2%nat _ eq_refl) as (s2 & Hs2 & Hm2 & Hsc2).
  destruct (Hrows 3%nat _ eq_refl) as (s3 & Hs3 & Hm3 & Hsc3).
  destruct out as [|? [|? [|? [|? [|]]]]]; try discriminate Hlen.
  simpl in *. simplify_eq. split; [by rewrite Hm0, Hm1, Hm2, Hm3|].
  specialize (Hsc0 Directing). specialize (Hsc1 Directing).
  specialize (Hsc2 Directing). specialize (Hsc3 Directing). simpl in *.
  rewrite Hsc0, Hsc1, Hsc2, Hsc3.
  repeat f_equal; apply Qc_is_canon; reflexivity.
Qed.
End Scenario.

Lemma three_movies_scores_0_100_150_witness :
  ∃ out,
    main merge_sort_by_date corpus_2001_2004 = Ok out ∧
    row_of <$> out = corpus_2001_2004 ∧
    director_score <$> out = [0; Qc_of_Z 100; Qc_of_Z 150; 0].
Proof.
  apply (three_movies_scores_0_100_150 merge_sort_by_date merge_sort_sorts);
    reflexivity.
Defined.

Lemma first_appearance_and_unknown_score_zero_witness :
  ∃ out s dl al,
    main merge_sort_by_date corpus_2001_2004 = Ok out ∧ out !! 0%nat = Some s ∧
    row_of s = Movie "2001-03-09" "A" "Unknown" (Qc_of_Z 100 * million) ∧
    loop (merge_sort_by_date corpus_2001_2004) (empty_ledger, empty_ledger)
      = Ok (dl, al) ∧
    (∀ r, entity r (Movie "2001-03-09" "A" "Unknown" (Qc_of_Z 100 * million))
            = "Unknown" → score r s = 0) ∧
    (∀ r, Forall (λ x, entity r x ≠ entity r
                    (Movie "2001-03-09" "A" "Unknown" (Qc_of_Z 100 * million)))
            (take 0 (merge_sort_by_date corpus_2001_2004)) →
          score r s = 0) ∧
    rev_sum dl !! "Unknown" = None ∧ rev_count dl !! "Unknown" = None ∧
    rev_sum al !! "Unknown" = None ∧ rev_count al !! "Unknown" = None.
Proof.
  apply (first_appearance_and_unknown_score_zero merge_sort_by_date
           corpus_2001_2004 0).
  reflexivity.
Defined.

(** ** No leakage *)





Section NoLeakage.
Variable sort_values : list movie → list movie.
Hypothesis sort_values_sorts : sorts_by_date sort_values.


End NoLeakage.


Lemma sorted_frame_fixed (sort_values : list movie → list movie) (l : list movie) :
  sorts_by_date sort_values → StronglySorted date_lt l → sort_values l = l.
Proof.
  intros Hsv Hl. destruct (Hsv l) as [Hperm Hasc].
  by apply ascending_reordering_unique.
Qed.

(** C2. What the code does with two movies of director "A" released on the
    same day, after a first movie of "A" with a revenue of 100 million.
    Line 109 records a row's revenue before the next row is read, whatever
    that row's date, so the same-day movie processed second is scored with
    the revenue of the other: 200 for the one with 500 million when the one
    with 300 million comes first, 300 the other way round, and 100 in both
    cases once the other same-day movie is deleted. This holds for every sort
    that orders by date, whichever of the two it puts first: deleting a movie
    released on a movie's own date changes that movie's score. *)
Theorem same_day_release_enters_score (sort_values : list movie → list movie) :
  sorts_by_date sort_values →
  (score_of Directing same_day_y (main sort_values same_day_corpus)
     = Some (Qc_of_Z 200) ∧
   score_of Directing same_day_y (main sort_values [first_of_a; same_day_y])
     = Some (Qc_of_Z 100)) ∨
  (score_of Directing same_day_x (main sort_values same_day_corpus)
     = Some (Qc_of_Z 300) ∧
   score_of Directing same_day_x (main sort_values [first_of_a; same_day_x])
     = Some (Qc_of_Z 100)).
Proof.
  intros Hsv. unfold main.
  rewrite (sorted_frame_fixed sort_values [first_of_a; same_day_y])
    by (done || compute_done).
  rewrite (sorted_frame_fixed sort_values [first_of_a; same_day_x])
    by (done || compute_done).
  destruct (Hsv same_day_corpus) as [Hperm Hasc].
  symmetry in Hperm. apply permutations_Permutation in Hperm.
  revert Hasc. generalize dependent (sort_values same_day_corpus).
  intros frame Hin. vm_compute in Hin.
  repeat (apply elem_of_cons in Hin as [->|Hin]);
    [..|by apply elem_of_nil in Hin]; intros Hasc.
  all: first
    [ by (exfalso; revert Hasc; compute_done)
    | left; split; compute_done
    | right; split; compute_done ].
Qed.

Lemma same_day_release_enters_score_witness :
  (score_of Directing same_day_y (main merge_sort_by_date same_day_corpus)
     = Some (Qc_of_Z 200) ∧
   score_of Directing same_day_y (main merge_sort_by_date [first_of_a; same_day_y])
     = Some (Qc_of_Z 100)) ∨
  (score_of Directing same_day_x (main merge_sort_by_date same_day_corpus)
     = Some (Qc_of_Z 300) ∧
   score_of Directing same_day_x (main merge_sort_by_date [first_of_a; same_day_x])
     = Some (Qc_of_Z 100)).
Proof.
  apply (same_day_release_enters_score merge_sort_by_date).
  apply merge_sort_sorts.
Defined.

(** ** The order among same-day releases *)

(** Sorting descending, stably, and reversing: ascending, with every group of
    equal dates in reverse. *)
Lemma tie_reversing_sort_sorts :
  sorts_by_date (λ df, reverse (merge_sort (flip date_le) df)).
Proof.
  intros df. split.
  - by rewrite reverse_Permutation, merge_sort_Permutation.
  - apply Sorted_StronglySorted; [apply _|].
    apply (Sorted_reverse (flip date_le)).
    apply Sorted_merge_sort. intros x y. destruct (total date_le x y); tauto.
Qed.

(** The call on line 94 asks for an ascending order and names no sorting
    algorithm. Two sorts that order same-day rows differently both give such
    an order: on two same-day rows one keeps the input order and the other
    reverses it. *)
Lemma same_day_order_not_fixed_by_ascending :
  sorts_by_date merge_sort_by_date ∧
  sorts_by_date (λ df, reverse (merge_sort (flip date_le) df)) ∧
  merge_sort_by_date [same_day_x; same_day_y] = [same_day_x; same_day_y] ∧
  reverse (merge_sort (flip date_le) [same_day_x; same_day_y])
  = [same_day_y; same_day_x].
Proof.
  split_and!; [apply merge_sort_sorts|apply tie_reversing_sort_sorts|done..].
Qed.

(** ** Further properties of the ledgers *)

Lemma tracks_count_value r past L e c :
  tracks r past L → rev_count L !! e = Some c →
  c = Z.of_nat (length (past_revenues r e past)) ∧
  e ≠ "Unknown" ∧ past_revenues r e past ≠ [].
Proof.
  intros HL Hc. destruct (HL e) as [Hsome Hnone].
  destruct (decide (e = "Unknown")) as [->|Hu].
  { destruct Hnone as [_ Hn]; [by left|congruence]. }
  destruct (decide (past_revenues r e past = [])) as [Hnil|Hcons].
  { destruct Hnone as [_ Hn]; [by right|congruence]. }
  destruct (Hsome Hu Hcons) as [_ Hc']. split_and!; [congruence|done..].
Qed.

Lemma tracks_count_grows r rows row L L' e c :
  tracks r rows L → tracks r (rows ++ [row]) L' → rev_count L !! e = Some c →
  ∃ c', rev_count L' !! e = Some c' ∧ (c ≤ c')%Z.
Proof.
  intros HL HL' Hc.
  destruct (tracks_count_value _ _ _ _ _ HL Hc) as (-> & Hu & Hcons).
  destruct (HL' e) as [Hsome _].
  destruct Hsome as [_ Hc']; [done| |].
  - rewrite past_revenues_snoc. by intros [? _]%app_eq_nil.
  - eexists. split; [done|]. rewrite past_revenues_snoc, length_app. lia.
Qed.

(** On rows whose names are strings: after any such rows the loop has
    returned, and each ledger holds exactly the entities other than "Unknown"
    that occur in them, each with the sum and the number of its revenues. *)
Theorem ledgers_hold_sum_and_count (rows : list movie) :
  ∃ dl al, loop rows (empty_ledger, empty_ledger) = Ok (dl, al) ∧
    tracks Directing rows dl ∧ tracks Acting rows al.
Proof.
  destruct (loop_tracks rows [] empty_ledger empty_ledger
              (tracks_empty _) (tracks_empty _))
    as (dl & al & E & Hd & Ha & _ & _).
  by exists dl, al.
Qed.

(** Processing one more row never lowers, and never removes, the appearance
    count of an entity in either ledger. *)
Theorem appearance_counts_never_decrease (rows : list movie) (row : movie) :
  ∃ dl al dl' al',
    loop rows (empty_ledger, empty_ledger) = Ok (dl, al) ∧
    loop (rows ++ [row]) (empty_ledger, empty_ledger) = Ok (dl', al') ∧
    (∀ e c, rev_count dl !! e = Some c →
       ∃ c', rev_count dl' !! e = Some c' ∧ (c ≤ c')%Z) ∧
    (∀ e c, rev_count al !! e = Some c →
       ∃ c', rev_count al' !! e = Some c' ∧ (c ≤ c')%Z).
Proof.
  destruct (loop_tracks rows [] empty_ledger empty_ledger
              (tracks_empty _) (tracks_empty _))
    as (dl & al & E & Hd & Ha & _ & _).
  destruct (loop_tracks (rows ++ [row]) [] empty_ledger empty_ledger
              (tracks_empty _) (tracks_empty _))
    as (dl' & al' & E' & Hd' & Ha' & _ & _).
  simpl in *. exists dl, al, dl', al'. split_and!; [done..| |].
  - intros e c. by apply (tracks_count_grows Directing rows row).
  - intros e c. by apply (tracks_count_grows Acting rows row).
Qed.

Lemma mean_of_singleton v : mean_of [v] = v.
Proof.
  unfold mean_of. rewrite bool_decide_eq_false_2 by done.
  change (sum_of [v]) with (v + 0). rewrite Qcplus_0_r.
  change (Z.of_nat (length [v])) with 1%Z.
  assert (Qc_of_Z 1 = 1) as -> by (by apply Qc_is_canon).
  apply (right_id 1 Qcdiv).
Qed.

(** A movie whose entity (other than "Unknown") has exactly one earlier
    appearance [x] in the processing order gets that appearance's revenue,
    in millions, as its score: a single data point is not discounted. *)
Theorem single_prior_appearance_gives_its_revenue
    (sort_values : list movie → list movie) (df : list movie)
    (r : role) (i : nat) (m x : movie) :
  sort_values df !! i = Some m → entity r m ≠ "Unknown" →
  filter (λ y, entity r y = entity r m) (take i (sort_values df)) = [x] →
  ∃ out s, main sort_values df = Ok out ∧ out !! i = Some s ∧ row_of s = m ∧
    score r s = revenue_adj x / million.
Proof.
  intros Hi Hu Hone. unfold main.
  destruct (rolling_scores_rows (sort_values df)) as (out & E & _ & Hrows).
  destruct (Hrows i m Hi) as (s & Hs & Hm & Hscore).
  exists out, s. split_and!; try done.
  rewrite Hscore. unfold past_mean, past_revenues.
  rewrite bool_decide_eq_false_2 by done. rewrite Hone. simpl.
  by rewrite mean_of_singleton.
Qed.

Lemma single_prior_appearance_gives_its_revenue_witness :
  ∃ out s,
    main merge_sort_by_date corpus_2001_2004 = Ok out ∧ out !! 1%nat = Some s ∧
    row_of s = Movie "2002-07-19" "A" "P" (Qc_of_Z 200 * million) ∧
    score Directing s = Qc_of_Z 100 * million / million.
Proof.
  apply (single_prior_appearance_gives_its_revenue merge_sort_by_date
           corpus_2001_2004 Directing 1
           (Movie "2002-07-19" "A" "P" (Qc_of_Z 200 * million))
           (Movie "2001-03-09" "A" "Unknown" (Qc_of_Z 100 * million))).
  - reflexivity.
  - simpl. discriminate.
  - reflexivity.
Defined.

(** ** Further properties of the cell parsers *)

(** [is_franchise] returns 1 exactly for a text other than "null" that
    [json.loads] turns into a non-empty dict, and 0 in every other case: a
    missing cell, the text "null", a text that does not parse, an empty dict,
    and any value that is not a dict. *)
Theorem is_franchise_one_iff_nonempty_dict
    (json_loads : string → result pyval) (collection_str : cell) :
  (is_franchise json_loads collection_str = 1%Z ∨
   is_franchise json_loads collection_str = 0%Z) ∧
  (is_franchise json_loads collection_str = 1%Z ↔
   ∃ s kvs, collection_str = Text s ∧ s ≠ "null" ∧
     json_loads s = Ok (PDict kvs) ∧ kvs ≠ []).
Proof.
  unfold is_franchise. destruct collection_str as [|s]; simpl.
  { split; [by right|]. split; [done|]. by intros (? & ? & ? & _). }
  case_bool_decide as Hnull.
  { split; [by right|]. split; [done|]. intros (? & ? & [= <-] & ? & _). done. }
  destruct (json_loads s) as [coll|e] eqn:L; simpl.
  2:{ split; [by right|]. split; [done|]. intros (? & ? & [= <-] & _ & ? & _).
      congruence. }
  destruct coll as [| | | | |kvs]; simpl;
    try (rewrite ?andb_false_r; split; [by right|]; split; [done|];
         intros (? & ? & [= <-] & _ & ? & _); congruence).
  destruct kvs as [|kv kvs]; simpl.
  - split; [by right|]. split; [done|].
    intros (? & ? & [= <-] & _ & ? & ?). congruence.
  - split; [by left|]. split; [|done]. intros _. by exists s, (kv :: kvs).
Qed.

Lemma py_get_directs member :
  directs member →
  ∃ kvs, member = PDict kvs ∧ py_get member "job" = Ok (PStr "Director").
Proof.
  unfold directs. intros (kvs & E & Hj). subst member.
  exists kvs. split; [done|]. simpl. by rewrite Hj.
Qed.

Lemma find_director_skip pre rest :
  Forall (λ m, is_dict m = true ∧ ¬ directs m) pre →
  find_director (pre ++ rest) = find_director rest.
Proof.
  induction 1 as [|m pre [Hd Hn] _ IH]; [done|]. simpl.
  destruct m as [| | | | |kvs]; try discriminate. simpl.
  destruct (py_eq_str (default PNone (assoc "job" kvs)) "Director") eqn:J; [|done].
  exfalso. apply Hn. exists kvs. split; [done|].
  apply py_eq_str_true in J. destruct (assoc "job" kvs); simpl in J; congruence.
Qed.

(** On a crew list, [get_director] walks the members in order. If the first
    member that is not an ordinary non-directing dict is a dict whose job is
    "Director", the result is the value under its "name" ([None] without
    one); if it is not a dict at all, the result is "Unknown" even when a
    director follows; and a list of dicts none of which directs gives
    "Unknown". *)
Theorem get_director_walks_crew_in_order
    (json_loads : string → result pyval) (s : string)
    (pre : list pyval) (member : pyval) (post : list pyval) :
  Forall (λ m, is_dict m = true ∧ ¬ directs m) pre →
  (json_loads s = Ok (PList (pre ++ member :: post)) → directs member →
     name_of member (get_director json_loads (Text s))) ∧
  (json_loads s = Ok (PList (pre ++ member :: post)) → is_dict member = false →
     get_director json_loads (Text s) = PStr "Unknown") ∧
  (json_loads s = Ok (PList pre) →
     get_director json_loads (Text s) = PStr "Unknown").
Proof.
  intros Hpre. unfold get_director. split_and!; intros L; simpl; rewrite L; simpl.
  - intros Hm. rewrite find_director_skip by done.
    destruct (py_get_directs member Hm) as (kvs & -> & Hj). simpl in *.
    injection Hj as Hj. rewrite Hj. simpl. by exists kvs.
  - intros Hm. rewrite find_director_skip by done.
    by destruct member.
  - rewrite <-(app_nil_r pre), find_director_skip by done. done.
Qed.

Lemma get_director_walks_crew_in_order_witness :
  name_of (PDict [("job", PStr "Director")])
    (get_director loads_sample (Text crew_without_name)).
Proof.
  destruct (get_director_walks_crew_in_order loads_sample crew_without_name
              [] (PDict [("job", PStr "Director")]) [] (Forall_nil_2 _))
    as (H & _ & _).
  apply H; [reflexivity|]. eexists. split; reflexivity.
Defined.

Lemma genre_names_all genres names :
  Forall2 has_name genres names → genre_names genres = Ok names.
Proof.
  induction 1 as [|g n genres names (kvs & -> & Hn) _ IH]; [done|].
  simpl. rewrite Hn. simpl. by rewrite IH.
Qed.

Lemma genre_names_one_bad genres g e :
  g ∈ genres → py_getitem g "name" = Raise e → ∃ e', genre_names genres = Raise e'.
Proof.
  intros Hin Hbad. induction genres as [|g' genres IH]; [by apply elem_of_nil in Hin|].
  simpl. apply elem_of_cons in Hin as [<-|Hin].
  - rewrite Hbad. by eexists.
  - destruct (py_getitem g' "name"); simpl; [|by eexists].
    destruct (IH Hin) as [e' ->]. by eexists.
Qed.

(** [get_genre_names] is all or nothing on a genre list: when every entry is
    a dict with a "name", the result is the names in the order of the list;
    when one entry is not a dict or has no "name", the result is the empty
    list, and the names of the other entries are lost. *)
Theorem get_genre_names_all_or_nothing
    (json_loads : string → result pyval) (s : string) (genres : list pyval) :
  json_loads s = Ok (PList genres) →
  (∀ names, Forall2 has_name genres names →
     get_genre_names json_loads (Text s) = names) ∧
  (∀ g e, g ∈ genres → py_getitem g "name" = Raise e →
     get_genre_names json_loads (Text s) = []).
Proof.
  intros L. unfold get_genre_names. simpl. rewrite L. simpl. split.
  - intros names Hall. by rewrite (genre_names_all _ _ Hall).
  - intros g e Hin Hbad.
    by destruct (genre_names_one_bad _ _ _ Hin Hbad) as [e' ->].
Qed.

Lemma get_genre_names_all_or_nothing_witness :
  get_genre_names loads_genres_sample (Text genres_one_unnamed) = [].
Proof.
  destruct (get_genre_names_all_or_nothing loads_genres_sample
              genres_one_unnamed _ eq_refl) as [_ H].
  apply (H (PDict []) KeyError); [|reflexivity].
  apply elem_of_cons. right. apply elem_of_cons. by left.
Defined.

(** On a cast list, [get_top_actor] reads the first entry only: the value
    under its "name" ([None] without one) when the entry is a dict, and
    "Unknown" when the list is empty or the first entry is not a dict. The
    entries after the first never matter. *)
Theorem get_top_actor_reads_first_entry
    (json_loads : string → result pyval) (s : string) (cast : list pyval) :
  json_loads s = Ok (PList cast) →
  (cast = [] → get_top_actor json_loads (Text s) = PStr "Unknown") ∧
  (∀ first rest, cast = first :: rest → is_dict first = false →
     get_top_actor json_loads (Text s) = PStr "Unknown") ∧
  (∀ first rest, cast = first :: rest → is_dict first = true →
     name_of first (get_top_actor json_loads (Text s))) ∧
  (∀ first rest rest' s', cast = first :: rest →
     json_loads s' = Ok (PList (first :: rest')) →
     get_top_actor json_loads (Text s') = get_top_actor json_loads (Text s)).
Proof.
  intros L. unfold get_top_actor. simpl. rewrite L. simpl. split_and!.
  - by intros ->.
  - intros first rest -> Hd. by destruct first.
  - intros first rest -> Hd. destruct first as [| | | | |kvs]; try done.
    by exists kvs.
  - intros first rest rest' s' -> L'. by rewrite L'.
Qed.

Lemma get_top_actor_reads_first_entry_witness :
  get_top_actor loads_genres_sample (Text genres_one_unnamed) = PStr "Action" ∧
  name_of (PDict [("name", PStr "Action")])
    (get_top_actor loads_genres_sample (Text genres_one_unnamed)).
Proof.
  split; [reflexivity|].
  destruct (get_top_actor_reads_first_entry loads_genres_sample
              genres_one_unnamed _ eq_refl) as (_ & _ & H & _).
  by apply (H _ [PDict []]).
Defined.

(** ** Further properties of the inference row *)

Section BuildMore.
Import App.
Implicit Types (schema : list string) (ui : live_input) (d : pydict).

Lemma set_if_present_absent k d : k ∉ d.*1 → set_if_present k d = d.
Proof. intros Hk. unfold set_if_present, contains. by rewrite bool_decide_eq_false_2. Qed.

Lemma lookup_Some_elem k v d : lookup k d = Some v → (k, v) ∈ d.
Proof.
  induction d as [|[k' v'] d IH]; simpl; [done|].
  case_bool_decide as E.
  - intros [= ->]. subst. left.
  - intros H. right. by apply IH.
Qed.

Lemma pydict_ext d1 d2 :
  d1.*1 = d2.*1 → (∀ k, lookup k d1 = lookup k d2) → NoDup d1.*1 → d1 = d2.
Proof.
  revert d2. induction d1 as [|[k v] d1 IH]; intros [|[k' v'] d2]; simpl; try done.
  intros [= <- Hk] Hl [Hnin Hnd]%NoDup_cons.
  change (d1.*1 = d2.*1) in Hk. f_equal.
  - f_equal. specialize (Hl k). rewrite !bool_decide_eq_true_2 in Hl by done.
    congruence.
  - apply IH; [done| |done]. intros k0. specialize (Hl k0).
    destruct (decide (k = k0)) as [<-|Hne].
    + assert (lookup k d1 = None) as -> by by apply lookup_None.
      symmetry. apply lookup_None. by rewrite <-Hk.
    + by rewrite !bool_decide_eq_false_2 in Hl by done.
Qed.

Lemma numeric_data_keys_iff schema ui x :
  x ∈ (numeric_data schema ui).*1 ↔ x ∈ schema ∨ x ∈ numeric_cols.
Proof.
  split; [intros H; apply numeric_data_keys_elem in H; tauto|].
  intros Hx. apply dec_stable. intros Hnin. apply lookup_None in Hnin.
  unfold numeric_data in Hnin. rewrite !lookup_setitem, lookup_zeros in Hnin.
  unfold numeric_cols in Hx. rewrite !elem_of_cons, elem_of_nil in Hx.
  repeat case_bool_decide; try done; intuition congruence.
Qed.

Lemma input_columns_numeric_data schema ui :
  input_columns schema ui = (numeric_data schema ui).*1.
Proof. unfold input_columns. by rewrite input_data_unfold, !set_if_present_keys. Qed.

Lemma season_family_zero_if_absent schema ui name v :
  season_col ui ∉ schema → (name, v) ∈ input_data schema ui →
  season_family name → v = 0.
Proof.
  intros Habs Hin Hfam.
  apply lookup_elem in Hin; [|apply input_data_NoDup].
  rewrite lookup_input_data in Hin.
  rewrite (bool_decide_eq_false_2 (genre_col ui = name)) in Hin
    by (intros E; by apply (season_family_not_genre name ui)).
  rewrite (bool_decide_eq_false_2 (season_col ui ∈ _)) in Hin.
  2:{ intros [?|?]%numeric_data_keys_elem; [|done].
      by apply (season_col_not_numeric ui). }
  rewrite andb_false_r in Hin. simpl in Hin.
  rewrite lookup_numeric_data_other in Hin by by apply season_family_not_numeric.
  case_bool_decide; congruence.
Qed.

(** Every row has duplicate-free columns: the names of the schema and the
    five numeric names, nothing else, and one entry per column. Rebuilding
    from the columns of a row reproduces the row. *)
Theorem input_columns_are_schema_and_numeric schema ui :
  NoDup (input_columns schema ui) ∧
  (∀ c, c ∈ input_columns schema ui ↔ c ∈ schema ∨ c ∈ numeric_cols) ∧
  length (input_row schema ui) = length (input_columns schema ui) ∧
  input_data (input_columns schema ui) ui = input_data schema ui.
Proof.
  split_and!.
  - apply input_data_NoDup.
  - intros c. rewrite input_columns_numeric_data. apply numeric_data_keys_iff.
  - unfold input_row, input_columns. by rewrite !length_fmap.
  - set (cols := input_columns schema ui).
    assert (NoDup cols) as Hnd by apply input_data_NoDup.
    assert (numeric_cols ⊆ cols) as Hsub.
    { intros c Hc. unfold cols. rewrite input_columns_numeric_data.
      apply numeric_data_keys_iff. by right. }
    assert ((numeric_data cols ui).*1 = (numeric_data schema ui).*1) as Hkeys.
    { rewrite numeric_data_keys by done. apply input_columns_numeric_data. }
    apply pydict_ext; [|intros k|apply input_data_NoDup].
    + fold (input_columns cols ui). fold (input_columns schema ui).
      by rewrite input_data_keys.
    + rewrite !lookup_input_data, Hkeys.
      assert (lookup k (numeric_data cols ui) = lookup k (numeric_data schema ui))
        as ->; [|done].
      unfold numeric_data. rewrite !lookup_setitem, !lookup_zeros.
      repeat (case_bool_decide; [done|]).
      assert (k ∈ cols ↔ k ∈ schema) as Hiff.
      { unfold cols. rewrite input_columns_numeric_data, numeric_data_keys_iff.
        unfold numeric_cols. rewrite !elem_of_cons, elem_of_nil.
        intuition congruence. }
      repeat case_bool_decide; tauto.
Qed.

(** When the selected season (resp. genre) indicator is a column of the
    schema, its entry is 1 and every other entry of the season (resp. genre)
    family is 0. *)
Theorem selected_indicator_is_the_only_one schema ui :
  (season_col ui ∈ schema →
     (season_col ui, 1) ∈ input_data schema ui ∧
     ∀ name v, (name, v) ∈ input_data schema ui → season_family name →
               name ≠ season_col ui → v = 0) ∧
  (genre_col ui ∈ schema →
     (genre_col ui, 1) ∈ input_data schema ui ∧
     ∀ name v, (name, v) ∈ input_data schema ui → genre_family name →
               name ≠ genre_col ui → v = 0).
Proof.
  split.
  - intros Hin. split.
    + apply lookup_Some_elem. rewrite lookup_input_data.
      rewrite (bool_decide_eq_false_2 (genre_col ui = season_col ui))
        by (intros E; by apply (season_col_not_genre ui ui)).
      simpl.
      rewrite (bool_decide_eq_true_2 (season_col ui = season_col ui)) by done.
      by rewrite (bool_decide_eq_true_2 (season_col ui ∈ _))
        by (apply numeric_data_keys_iff; by left).
    + intros name v Hv Hfam Hne.
      apply lookup_elem in Hv; [|apply input_data_NoDup].
      rewrite lookup_input_data in Hv.
      rewrite (bool_decide_eq_false_2 (genre_col ui = name)) in Hv
        by (intros E; by apply (season_family_not_genre name ui)).
      rewrite (bool_decide_eq_false_2 (season_col ui = name)) in Hv by done.
      simpl in Hv.
      rewrite lookup_numeric_data_other in Hv by by apply season_family_not_numeric.
      case_bool_decide; congruence.
  - intros Hin. split.
    + apply lookup_Some_elem. rewrite lookup_input_data.
      rewrite (bool_decide_eq_true_2 (genre_col ui = genre_col ui)) by done.
      by rewrite (bool_decide_eq_true_2 (genre_col ui ∈ _))
        by (apply numeric_data_keys_iff; by left).
    + intros name v Hv Hfam Hne.
      apply lookup_elem in Hv; [|apply input_data_NoDup].
      rewrite lookup_input_data in Hv.
      rewrite (bool_decide_eq_false_2 (genre_col ui = name)) in Hv by done.
      rewrite (bool_decide_eq_false_2 (season_col ui = name)) in Hv
        by (intros E; by apply (genre_family_not_season name ui)).
      simpl in Hv.
      rewrite lookup_numeric_data_other in Hv by by apply genre_family_not_numeric.
      case_bool_decide; congruence.
Qed.

Lemma selected_indicator_is_the_only_one_witness :
  (genre_col (ui_with_season "Holiday Season"), 1)
    ∈ input_data schema_holiday (ui_with_season "Holiday Season").
Proof.
  destruct (selected_indicator_is_the_only_one schema_holiday
              (ui_with_season "Holiday Season")) as [_ H].
  apply H. unfold schema_holiday. compute_done.
Defined.

Lemma get_season_labels month label :
  get_season month = Ok label →
  label ∈ ["Unknown"; "Summer_Blockbuster"; "Holiday_Season"; "Dump_Months";
           "Spring_Fall"].
Proof.
  rewrite !elem_of_cons. destruct month as [| |q]; simpl; [|done|].
  - intros [= <-]. tauto.
  - by_month; intros [= <-]; tauto.
Qed.

Lemma season_option_not_trained schema s :
  (∀ c, c ∈ schema → season_family c → trained_season_col c) →
  s ∈ season_options → "season_" +:+ s ∉ schema.
Proof.
  intros Htrained Hs Hin.
  destruct (Htrained _ Hin) as (month & label & Hl & E);
    [by unfold season_family; destruct s|].
  injection E as E. change (s = label) in E. subst label.
  apply get_season_labels in Hl.
  unfold season_options in Hs.
  repeat (apply elem_of_cons in Hl as [Hl|Hl]); [..|by apply elem_of_nil in Hl];
    subst s; repeat (apply elem_of_cons in Hs as [Hs|Hs]);
    try discriminate Hs; by apply elem_of_nil in Hs.
Qed.

(** On a schema whose season columns carry the labels of [get_season], none
    of the four seasons the selectbox offers names a column: every season
    entry of the row is 0, and the row is the same whichever season is
    selected. *)
Theorem season_choice_does_not_reach_row schema ui s1 s2 :
  (∀ c, c ∈ schema → season_family c → trained_season_col c) →
  s1 ∈ season_options → s2 ∈ season_options →
  (season_col (with_season s1 ui) ∉ schema) ∧
  (∀ name v, (name, v) ∈ input_data schema (with_season s1 ui) →
             season_family name → v = 0) ∧
  input_data schema (with_season s1 ui) = input_data schema (with_season s2 ui).
Proof.
  intros Htrained H1 H2.
  pose proof (season_option_not_trained schema s1 Htrained H1) as N1.
  pose proof (season_option_not_trained schema s2 Htrained H2) as N2.
  split_and!; [done| |].
  - intros name v. by apply season_family_zero_if_absent.
  - rewrite !input_data_unfold.
    assert (∀ s, s ∈ season_options →
              set_if_present (season_col (with_season s ui))
                (numeric_data schema (with_season s ui))
              = numeric_data schema ui) as Hset.
    { intros s Hs. rewrite set_if_present_absent; [done|].
      intros [?|Hin]%numeric_data_keys_elem.
      - by apply (season_col_not_numeric (with_season s ui)).
      - by apply (season_option_not_trained schema s Htrained Hs). }
    by rewrite !Hset.
Qed.

Lemma season_choice_does_not_reach_row_witness :
  input_data schema_holiday (with_season "Holiday Season" (ui_with_season ""))
  = input_data schema_holiday (with_season "Dump Months" (ui_with_season "")).
Proof.
  apply (season_choice_does_not_reach_row schema_holiday (ui_with_season "")
           "Holiday Season" "Dump Months").
  - intros c Hc Hfam. unfold schema_holiday in Hc.
    rewrite !elem_of_cons, elem_of_nil in Hc.
    destruct Hc as [->|[->|[->|[->|[->|[->|[->|[]]]]]]]]; try discriminate Hfam.
    exists (MonthNum (Qc_of_Z 12)), "Holiday_Season". split; reflexivity.
  - unfold season_options. rewrite !elem_of_cons. tauto.
  - unfold season_options. rewrite !elem_of_cons. tauto.
Defined.
End BuildMore.

(** ** Further properties of the rolling-average pass *)

Lemma rolling_scores_row_of frame out :
  rolling_scores frame = Ok out → row_of <$> out = frame.
Proof.
  intros E. destruct (rolling_scores_rows frame) as (out' & E' & Hlen & Hrows).
  assert (out' = out) as -> by congruence.
  apply list_eq. intros i. rewrite list_lookup_fmap.
  destruct (frame !! i) as [m|] eqn:Hi.
  - destruct (Hrows i m Hi) as (s & -> & <- & _). done.
  - apply lookup_ge_None in Hi. rewrite lookup_ge_None_2; [done|lia].
Qed.

Section MainMore.
Variable sort_values : list movie → list movie.
Hypothesis sort_values_sorts : sorts_by_date sort_values.

(** On a frame whose names are strings, [main] returns, and its output holds
    the rows of the input frame, each once, in ascending order of release
    date: no movie is dropped or duplicated by the pass. *)
Theorem main_keeps_every_movie (df : list movie) :
  ∃ out, main sort_values df = Ok out ∧
    row_of <$> out ≡ₚ df ∧ length out = length df ∧
    StronglySorted date_le (row_of <$> out).
Proof.
  unfold main. destruct (sort_values_sorts df) as [Hperm Hasc].
  destruct (rolling_scores_rows (sort_values df)) as (out & E & Hlen & _).
  exists out. rewrite (rolling_scores_row_of _ _ E).
  split_and!; try done. by rewrite Hlen, Hperm.
Qed.
End MainMore.

Lemma main_keeps_every_movie_witness :
  ∃ out, main merge_sort_by_date corpus_2001_2004 = Ok out ∧
    row_of <$> out ≡ₚ corpus_2001_2004 ∧ length out = length corpus_2001_2004 ∧
    StronglySorted date_le (row_of <$> out).
Proof.
  exact (main_keeps_every_movie merge_sort_by_date merge_sort_sorts
           corpus_2001_2004).
Defined.

Lemma past_revenues_same_columns r frame frame' e :
  entity r <$> frame = entity r <$> frame' →
  revenue_adj <$> frame = revenue_adj <$> frame' →
  past_revenues r e frame = past_revenues r e frame'.
Proof.
  revert frame'. induction frame as [|m frame IH]; intros [|m' frame'] He Hr;
    try done.
  injection He as He1 He. injection Hr as Hr1 Hr.
  unfold past_revenues in *. rewrite !filter_cons, He1.
  case_decide; rewrite ?fmap_cons, ?Hr1; [f_equal|]; by apply IH.
Qed.

(** The two ledgers are independent: the scores of one role depend only on
    that role's name column and on the revenue column. Two frames that agree
    on the directors and the revenues get the same director scores whatever
    their lead actors are, and the other way round. *)
Theorem scores_of_a_role_ignore_the_other_column
    (r : role) (frame frame' : list movie) :
  entity r <$> frame = entity r <$> frame' →
  revenue_adj <$> frame = revenue_adj <$> frame' →
  ∃ out out', rolling_scores frame = Ok out ∧ rolling_scores frame' = Ok out' ∧
    score r <$> out = score r <$> out'.
Proof.
  intros He Hr.
  destruct (rolling_scores_rows frame) as (out & E & Hlen & Hrows).
  destruct (rolling_scores_rows frame') as (out' & E' & Hlen' & Hrows').
  exists out, out'. split_and!; [done..|].
  assert (length frame = length frame') as Hl.
  { by rewrite <-(length_fmap (entity r) frame), He, length_fmap. }
  apply list_eq. intros i. rewrite !list_lookup_fmap.
  destruct (frame !! i) as [m|] eqn:Hi.
  - destruct (frame' !! i) as [m'|] eqn:Hi'.
    2:{ apply lookup_ge_None in Hi'. apply lookup_lt_Some in Hi. lia. }
    destruct (Hrows i m Hi) as (s & -> & _ & Hs).
    destruct (Hrows' i m' Hi') as (s' & -> & _ & Hs'). simpl.
    rewrite Hs, Hs'. do 2 f_equal.
    assert (entity r m = entity r m') as ->.
    { apply (f_equal (λ l, l !! i)) in He.
      rewrite !list_lookup_fmap, Hi, Hi' in He. by injection He. }
    unfold past_mean. case_bool_decide; [done|]. f_equal.
    apply past_revenues_same_columns; rewrite !fmap_take; congruence.
  - apply lookup_ge_None in Hi.
    rewrite !lookup_ge_None_2; [done|lia..].
Qed.

Lemma scores_of_a_role_ignore_the_other_column_witness :
  ∃ out out',
    rolling_scores corpus_2001_2004 = Ok out ∧
    rolling_scores
      (three_by_a_then_b "2001-03-09" "2002-07-19" "2003-11-21" "2004-05-14"
         "S" "S" "T" "T" (Qc_of_Z 50 * million)) = Ok out' ∧
    score Directing <$> out = score Directing <$> out'.
Proof.
  apply (scores_of_a_role_ignore_the_other_column Directing); reflexivity.
Defined.

Lemma sum_of_nonneg xs : Forall (λ x, 0 ≤ x) xs → 0 ≤ sum_of xs.
Proof.
  induction 1 as [|x xs Hx _ IH]; simpl; [done|].
  by apply Qcplus_nonneg_nonneg.
Qed.

Lemma Qcdiv_nonneg x c : 0 ≤ x → 0 < c → 0 ≤ x / c.
Proof.
  unfold Qcle, Qclt. intros Hx Hc. simpl in *. rewrite !Qred_correct.
  apply Qmult_le_0_compat; [done|]. by apply Qinv_le_0_compat, Qlt_le_weak.
Qed.

Lemma Qc_of_Z_pos z : (0 < z)%Z → 0 < Qc_of_Z z.
Proof. intros Hz. unfold Qclt, Qlt. simpl. lia. Qed.

Lemma mean_of_nonneg xs : Forall (λ x, 0 ≤ x) xs → 0 ≤ mean_of xs.
Proof.
  intros Hxs. unfold mean_of. case_bool_decide; [done|].
  apply Qcdiv_nonneg; [by apply sum_of_nonneg|].
  apply Qc_of_Z_pos. destruct xs; [done|]. simpl. lia.
Qed.

(** When no revenue of the frame is negative, no score is negative. *)
Theorem scores_not_negative (frame : list movie) :
  Forall (λ m, 0 ≤ revenue_adj m) frame →
  ∃ out, rolling_scores frame = Ok out ∧
    Forall (λ s, 0 ≤ director_score s ∧ 0 ≤ actor_score s) out.
Proof.
  intros Hrev. destruct (rolling_scores_rows frame) as (out & E & Hlen & Hrows).
  exists out. split; [done|]. apply Forall_lookup. intros i s Hs.
  destruct (frame !! i) as [m|] eqn:Hi.
  2:{ apply lookup_ge_None in Hi. apply lookup_lt_Some in Hs. lia. }
  destruct (Hrows i m Hi) as (s' & Hs' & _ & Hscore).
  assert (s' = s) as -> by congruence.
  assert (∀ r, 0 ≤ score r s) as Hall.
  { intros r. rewrite Hscore. apply Qcdiv_nonneg; [|by apply Qc_of_Z_pos].
    unfold past_mean. case_bool_decide; [done|]. apply mean_of_nonneg.
    unfold past_revenues. apply (Forall_take _ i) in Hrev.
    rewrite Forall_forall in Hrev. apply Forall_forall. intros x Hx.
    apply list_elem_of_fmap in Hx as (m' & -> & Hm').
    apply list_elem_of_filter in Hm' as [_ Hm']. by apply Hrev. }
  split; [apply (Hall Directing)|apply (Hall Acting)].
Qed.

Lemma scores_not_negative_witness :
  ∃ out, rolling_scores corpus_2001_2004 = Ok out ∧
    Forall (λ s, 0 ≤ director_score s ∧ 0 ≤ actor_score s) out.
Proof.
  apply scores_not_negative. unfold corpus_2001_2004, three_by_a_then_b.
  repeat constructor; compute_done.
Defined.

(** ** [02_clean_data.py]: the inflation adjustment *)

Lemma pd_unique_elem xs : ∀ seen x, x ∈ pd_unique seen xs ↔ x ∈ xs ∧ x ∉ seen.
Proof.
  induction xs as [|y xs IH]; intros seen x; simpl.
  - rewrite elem_of_nil. tauto.
  - case_bool_decide as Hy.
    + rewrite IH, elem_of_cons. split; [tauto|].
      intros [[->|?] ?]; tauto.
    + rewrite elem_of_cons, IH, !elem_of_cons. split.
      * intros [->|[? ?]]; tauto.
      * intros [[->|?] ?]; [tauto|]. destruct (decide (x = y)); tauto.
Qed.

Lemma inflation_multipliers_from cpi_inflate current_year ys : ∀ (m : gmap Z Qc) y,
  foldl (λ multipliers y,
           if bool_decide (current_year ≤ y)%Z then <[y := 1]> multipliers
           else match cpi_inflate y with
                | Ok f => <[y := f]> multipliers
                | Raise _ => <[y := 1]> multipliers
                end) m ys !! y
  = if bool_decide (y ∈ ys) then Some (multiplier_for cpi_inflate current_year y)
    else m !! y.
Proof.
  induction ys as [|y0 ys IH]; intros m y; simpl; [done|].
  rewrite IH. destruct (decide (y ∈ ys)) as [Hin|Hnin].
  - rewrite (bool_decide_eq_true_2 (y ∈ ys)) by done.
    by rewrite (bool_decide_eq_true_2 (y ∈ y0 :: ys)) by (by right).
  - rewrite (bool_decide_eq_false_2 (y ∈ ys)) by done.
    destruct (decide (y0 = y)) as [->|Hne].
    + rewrite (bool_decide_eq_true_2 (y ∈ y :: ys)) by left.
      unfold multiplier_for.
      case_bool_decide; [by rewrite lookup_insert_eq|].
      destruct (cpi_inflate y); by rewrite lookup_insert_eq.
    + rewrite (bool_decide_eq_false_2 (y ∈ y0 :: ys))
        by (rewrite elem_of_cons; intuition congruence).
      case_bool_decide; [by rewrite lookup_insert_ne|].
      destruct (cpi_inflate y0); by rewrite lookup_insert_ne.
Qed.

(** Every row gets an inflation factor, so no adjusted amount is missing;
    budget and revenue of a row are multiplied by the same factor; that
    factor is what [cpi.inflate(1, year)] returns for a year before the
    current one, and 1 for the current or a later year and for a year on
    which [cpi.inflate] raises. *)
Theorem every_row_gets_one_inflation_factor
    (cpi_inflate : Z → result Qc) (current_year : Z)
    (rows : list money_row) (i : nat) (row : money_row) :
  rows !! i = Some row →
  ∃ f, adjust_for_inflation cpi_inflate current_year rows !! i
       = Some (AdjustedRow (Some f) (Some (budget row * f)) (Some (revenue row * f))) ∧
    ((current_year ≤ release_year row)%Z → f = 1) ∧
    (∀ e, cpi_inflate (release_year row) = Raise e → f = 1) ∧
    (∀ g, (release_year row < current_year)%Z →
          cpi_inflate (release_year row) = Ok g → f = g).
Proof.
  intros Hi. exists (multiplier_for cpi_inflate current_year (release_year row)).
  split.
  - unfold adjust_for_inflation. rewrite list_lookup_fmap, Hi. simpl.
    unfold inflation_multipliers. rewrite inflation_multipliers_from.
    rewrite bool_decide_eq_true_2; [done|].
    apply pd_unique_elem. split; [|apply not_elem_of_nil].
    apply list_elem_of_fmap. exists row. split; [done|].
    by eapply list_elem_of_lookup_2.
  - unfold multiplier_for. split_and!.
    + intros. by rewrite bool_decide_eq_true_2.
    + intros e ->. by case_bool_decide.
    + intros g ? ->. rewrite bool_decide_eq_false_2; [done|lia].
Qed.

Lemma every_row_gets_one_inflation_factor_witness :
  ∃ f, adjust_for_inflation cpi_sample 2024
         [MoneyRow 2010 (Qc_of_Z 20 * million) (Qc_of_Z 60 * million);
          MoneyRow 2022 (Qc_of_Z 50 * million) (Qc_of_Z 10 * million)] !! 1%nat
       = Some (AdjustedRow (Some f) (Some (Qc_of_Z 50 * million * f))
                 (Some (Qc_of_Z 10 * million * f))) ∧
    f = 1.
Proof.
  destruct (every_row_gets_one_inflation_factor cpi_sample 2024
              [MoneyRow 2010 (Qc_of_Z 20 * million) (Qc_of_Z 60 * million);
               MoneyRow 2022 (Qc_of_Z 50 * million) (Qc_of_Z 10 * million)]
              1 (MoneyRow 2022 (Qc_of_Z 50 * million) (Qc_of_Z 10 * million))
              eq_refl) as (f & E & _ & H & _).
  exists f. split; [exact E|]. apply (H KeyError). reflexivity.
Defined.

(** ** [run_pipeline.py] *)

Lemma run_scripts_spec script_exists returncode scripts :
  ∀ ran e, run_scripts script_exists returncode scripts = (ran, e) →
  ran `prefix_of` scripts ∧
  Forall (λ s, script_exists s = true) ran ∧
  (∀ pre s post, ran = pre ++ s :: post → post ≠ [] → returncode s = 0%Z) ∧
  (e = Completed ↔
     Forall (λ s, script_exists s = true ∧ returncode s = 0%Z) scripts) ∧
  (e = Completed → ran = scripts) ∧
  (e = Exit1 →
     (∃ s, last ran = Some s ∧ returncode s ≠ 0%Z) ∨
     (∃ s rest, scripts = ran ++ s :: rest ∧ script_exists s = false)).
Proof.
  induction scripts as [|s scripts IH]; intros ran e; simpl.
  - intros [= <- <-]. split_and!; try done.
    intros pre s post H. by destruct pre.
  - destruct (script_exists s) eqn:Hs; simpl.
    2:{ intros [= <- <-]. split_and!; try done.
        - apply prefix_nil.
        - intros pre s' post H. by destruct pre.
        - split; [done|]. intros [[? _] _]%Forall_cons. congruence.
        - intros _. right. by exists s, scripts. }
    case_bool_decide as Hrc.
    { intros [= <- <-]. split_and!; try done.
      - by exists scripts.
      - by constructor.
      - intros pre s' post H Hpost.
        by destruct pre as [|? [|]]; simpl in H; simplify_eq.
      - split; [done|]. intros [[_ ?] _]%Forall_cons. done.
      - intros _. left. by exists s. }
    destruct (run_scripts script_exists returncode scripts) as [ran' e'] eqn:R.
    intros [= <- <-].
    destruct (IH ran' e' eq_refl) as (Hpre & Hex & Hmid & Hok & Hall & Hfail).
    split_and!.
    + by apply prefix_cons.
    + by constructor.
    + intros pre s' post H Hpost.
      destruct pre as [|p pre]; simpl in H; simplify_eq; [done|].
      by eapply Hmid.
    + rewrite Hok, Forall_cons. tauto.
    + intros He. f_equal. by apply Hall.
    + intros He. destruct (Hfail He) as [(s' & Hl & ?)|(s' & rest & -> & ?)].
      * left. exists s'. split; [|done]. destruct ran'; [done|]. done.
      * right. by exists s', rest.
Qed.

(** The scripts are run in the order of [PIPELINE] and the run stops at the
    first one that is missing or returns a non-zero code: the scripts run are
    an initial part of [PIPELINE], every one of them but the last returned 0,
    and [main] completes exactly when all five exist and return 0; otherwise
    it exits with status 1 right after the failing script, or before the
    missing one. *)
Theorem pipeline_stops_at_first_failure
    (script_exists : string → bool) (returncode : string → Z) :
  ∃ ran e, run_pipeline script_exists returncode = (ran, e) ∧
    ran `prefix_of` PIPELINE ∧
    (∀ pre s post, ran = pre ++ s :: post → post ≠ [] → returncode s = 0%Z) ∧
    (e = Completed ↔
       Forall (λ s, script_exists s = true ∧ returncode s = 0%Z) PIPELINE) ∧
    (e = Completed → ran = PIPELINE) ∧
    (e = Exit1 →
       (∃ s, last ran = Some s ∧ returncode s ≠ 0%Z) ∨
       (∃ s rest, PIPELINE = ran ++ s :: rest ∧ script_exists s = false)).
Proof.
  unfold run_pipeline.
  destruct (run_scripts script_exists returncode PIPELINE) as [ran e] eqn:R.
  exists ran, e. split; [done|].
  destruct (run_scripts_spec _ _ _ _ _ R) as (? & _ & ? & ? & ? & ?).
  done.
Qed.
